(** * Holiday house expense splitter: the ledger engine of [app.py]

    A shallow embedding of the parsing, validation, aggregation, balance,
    settlement and report code of [src/app.py], the properties of its
    specification that were checked against it, and further properties of
    the code.

    Numbers.  Python's [float] is IEEE 754 binary64.  The engine is written
    once over a small interface of float operations ([FloatOps]) and run at
    two instances:
    - [binary64]: the operations of the Standard Library's [SpecFloat]
      (round to nearest even, signed zeros, infinities, one NaN) at
      precision 53 and exponent bound 1024.  This is what the code computes.
    - [exact]: the rationals [Q], that is the same program with every
      rounding removed.  It is used to state what the formulas give in exact
      arithmetic and never stands for the behaviour of the code.
    Python's [int] is [Z].

    Containers.  A [dict] or [set] that is only looked up, tested for
    membership or summed over exact integers is a [gmap] or [gset]; the
    balance mapping handed to [calculate_settlements] is the list of its
    items in iteration order (keys pairwise distinct); lists stay lists.

    Strings are byte strings; every input is taken to be ASCII.

    The settlement loop can fail to exit, so it is run on fuel: [None] means
    that it has not exited within the given number of iterations. *)

From Stdlib Require Import ZArith QArith Qabs Lqa Lia Bool Ascii String List.
From Stdlib Require Import Permutation Sorted.
From Stdlib Require Import Floats.SpecFloat Floats.PrimFloat Floats.FloatOps.
From Stdlib Require OrderedTypeEx DecimalString.
From stdpp Require Import gmap strings list fin_maps fin_sets.

Set Default Proof Using "Type".
Local Open Scope Z_scope.

(* ===================================================================== *)
(** ** The float interface and its two instances *)
(* ===================================================================== *)

(** The operations [app.py] applies to floats.  [f_of_int] is the implicit
    conversion of an [int] operand in mixed arithmetic; it fails with
    [OverflowError] ([None]) when the integer is too large. *)
Class FloatOps (F : Type) := {
  f_zero : F;                 (* 0.0 *)
  f_cent : F;                 (* the literal 0.01 *)
  f_neg : F -> F;             (* unary minus *)
  f_add : F -> F -> F;
  f_sub : F -> F -> F;
  f_mul : F -> F -> F;
  f_div : F -> F -> F;        (* true division by a non-zero divisor *)
  f_lt : F -> F -> bool;      (* x < y *)
  f_le : F -> F -> bool;      (* x <= y *)
  f_eq : F -> F -> bool;      (* x == y *)
  f_of_int : Z -> option F;
  f_int_div : Z -> Z -> option F;   (* int / int by a non-zero divisor *)
}.

Module B64.
Definition prec : Z := 53.
Definition emax : Z := 1024.

Definition add := SFadd prec emax.
Definition sub := SFsub prec emax.
Definition mul := SFmul prec emax.
Definition div := SFdiv prec emax.

(** Round an integer to the nearest binary64, ties to even. *)
Definition round_int (z : Z) : spec_float := binary_normalize prec emax z 0 false.

(** [float(n)] for a Python int: the rounded value, or [OverflowError]
    when it rounds beyond the largest finite float. *)
Definition of_int (z : Z) : option spec_float :=
  match round_int z with
  | S754_infinity _ => None
  | x => Some x
  end.

(** [a / b] for two Python ints, [b] non-zero: the quotient rounded once,
    or [OverflowError] when it is too large for a float. *)
Definition int_div (a b : Z) : option spec_float :=
  match a, b with
  | Z0, _ => Some (S754_zero (b <? 0))
  | _, Z0 => None
  | _, _ =>
      match div (S754_finite (a <? 0) (Z.to_pos (Z.abs a)) 0)
                (S754_finite (b <? 0) (Z.to_pos (Z.abs b)) 0) with
      | S754_infinity _ => None
      | q => Some q
      end
  end.

(** The float denoted by the literal [0.01], [0x1.47ae147ae147bp-7]. *)
Definition cent : spec_float := S754_finite false 5764607523034235 (-59).

Definition is_finite (x : spec_float) : bool :=
  match x with
  | S754_zero _ | S754_finite _ _ _ => true
  | _ => false
  end.

Definition is_nan (x : spec_float) : bool :=
  match x with S754_nan => true | _ => false end.
End B64.

#[export] Instance binary64 : FloatOps spec_float := {|
  f_zero := S754_zero false;
  f_cent := B64.cent;
  f_neg := SFopp;
  f_add := B64.add;
  f_sub := B64.sub;
  f_mul := B64.mul;
  f_div := B64.div;
  f_lt := SFltb;
  f_le := SFleb;
  f_eq := SFeqb;
  f_of_int := B64.of_int;
  f_int_div := B64.int_div;
|}.

#[export] Instance exact : FloatOps Q := {|
  f_zero := 0%Q;
  f_cent := (1 # 100)%Q;
  f_neg := Qopp;
  f_add := Qplus;
  f_sub := Qminus;
  f_mul := Qmult;
  f_div := Qdiv;
  f_lt := fun x y => negb (Qle_bool y x);
  f_le := Qle_bool;
  f_eq := Qeq_bool;
  f_of_int := fun z => Some (inject_Z z);
  f_int_div := fun a b => Some (inject_Z a / inject_Z b)%Q;
|}.

(** Python's [min(a, b)]: the first argument unless the second is smaller. *)
Definition py_min {F} `{FloatOps F} (a b : F) : F := if f_lt b a then b else a.

(** [list.sort] is stable and compares with [<] only: an element goes
    in front of the first one it is smaller than. *)
Fixpoint insert_sorted {A} (lt : A -> A -> bool) (x : A) (l : list A) : list A :=
  match l with
  | [] => [x]
  | y :: l' => if lt x y then x :: l else y :: insert_sorted lt x l'
  end.

Definition list_sort {A} (lt : A -> A -> bool) (l : list A) : list A :=
  fold_left (fun acc x => insert_sorted lt x acc) l [].

(* ===================================================================== *)
(** ** Settlement engine: [calculate_settlements] *)
(* ===================================================================== *)

Section Settlement.
Context {F : Type} `{FloatOps F}.

(** The loop over [balances.items()]: debtors carry [-balance]. *)
Fixpoint partition_balances (balances : list (string * F))
  : list (string * F) * list (string * F) :=
  match balances with
  | [] => ([], [])
  | (family, balance) :: rest =>
      let '(debtors, creditors) := partition_balances rest in
      if f_lt balance (f_neg f_cent) then ((family, f_neg balance) :: debtors, creditors)
      else if f_lt f_cent balance then (debtors, (family, balance) :: creditors)
      else (debtors, creditors)
  end.

(** The sort key [lambda x: (-x[1], x[0])] and Python's [<] on such
    tuples: the first components decide unless they are equal. *)
Definition sort_key (x : string * F) : F * string := (f_neg x.2, x.1).

Definition key_lt (k1 k2 : F * string) : bool :=
  if f_eq k1.1 k2.1 then String.ltb k1.2 k2.2 else f_lt k1.1 k2.1.

Definition entry_lt (x y : string * F) : bool := key_lt (sort_key x) (sort_key y).

(** One iteration of [while debtors and creditors]: the transfer appended
    (if any) and the two lists afterwards; [None] when the loop exits. *)
Definition settle_step (debtors creditors : list (string * F))
  : option (option (string * string * F) * list (string * F) * list (string * F)) :=
  match debtors, creditors with
  | (debtor, debt) :: ds, (creditor, credit) :: cs =>
      let amount := py_min debt credit in
      let emitted := if f_lt f_cent amount then Some (debtor, creditor, amount) else None in
      let debt' := f_sub debt amount in
      let credit' := f_sub credit amount in
      let debtors' := if f_lt debt' f_cent then ds else (debtor, debt') :: ds in
      let creditors' := if f_lt credit' f_cent then cs else (creditor, credit') :: cs in
      Some (emitted, debtors', creditors')
  | _, _ => None
  end.

(** The loop, run for at most [fuel] iterations; [None] when it has not
    exited by then. *)
Fixpoint settle_loop (fuel : nat) (debtors creditors : list (string * F))
  : option (list (string * string * F)) :=
  match settle_step debtors creditors with
  | None => Some []
  | Some (emitted, debtors', creditors') =>
      match fuel with
      | O => None
      | S fuel' =>
          match settle_loop fuel' debtors' creditors' with
          | None => None
          | Some rest => Some (match emitted with Some t => t :: rest | None => rest end)
          end
      end
  end.

Definition calculate_settlements (fuel : nat) (balances : list (string * F))
  : option (list (string * string * F)) :=
  let '(debtors, creditors) := partition_balances balances in
  settle_loop fuel (list_sort entry_lt debtors) (list_sort entry_lt creditors).

(** Number of families the first loop puts in one of the two lists. *)
Definition outside_tolerance (balance : F) : bool :=
  f_lt balance (f_neg f_cent) || f_lt f_cent balance.

Definition count_outside (balances : list (string * F)) : nat :=
  List.length (List.filter (fun x => outside_tolerance x.2) balances).
End Settlement.


(* ===================================================================== *)
(** ** Python string operations used by the parsers (ASCII) *)
(* ===================================================================== *)

Module Py.
(** The ASCII characters for which [str.isspace] holds. *)
Definition is_space (c : ascii) : bool :=
  let n := N_of_ascii c in
  ((9 <=? n) && (n <=? 13) || (28 <=? n) && (n <=? 32))%N.

Fixpoint lstrip (s : string) : string :=
  match s with
  | String c s' => if is_space c then lstrip s' else s
  | EmptyString => EmptyString
  end.

Fixpoint rstrip (s : string) : string :=
  match s with
  | EmptyString => EmptyString
  | String c s' =>
      match rstrip s' with
      | EmptyString => if is_space c then EmptyString else String c EmptyString
      | r => String c r
      end
  end.

(** [s.strip()] *)
Definition strip (s : string) : string := rstrip (lstrip s).

(** [s.split(sep)] for a one-character separator. *)
Fixpoint split (sep : ascii) (s : string) : list string :=
  match s with
  | EmptyString => [EmptyString]
  | String c s' =>
      if Ascii.eqb c sep then EmptyString :: split sep s'
      else match split sep s' with
           | piece :: pieces => String c piece :: pieces
           | [] => [String c EmptyString]
           end
  end.

(** [sep in s] *)
Fixpoint contains (sep : ascii) (s : string) : bool :=
  match s with
  | EmptyString => false
  | String c s' => Ascii.eqb c sep || contains sep s'
  end.

(** [s.split(sep, 1)] when [sep in s]: the text before and after the
    first separator. *)
Fixpoint split_once (sep : ascii) (s : string) : string * string :=
  match s with
  | EmptyString => (EmptyString, EmptyString)
  | String c s' =>
      if Ascii.eqb c sep then (EmptyString, s')
      else let '(before, after) := split_once sep s' in (String c before, after)
  end.

Definition digit_value (c : ascii) : option Z :=
  let n := N_of_ascii c in
  if ((48 <=? n) && (n <=? 57))%N then Some (Z.of_N n - 48) else None.

(** A [digitpart]: digits, single underscores allowed between two digits.
    [acc] is the value read so far, [count] the number of digits read,
    [after_digit] tells whether the previous character was a digit.  The
    result is the value, the number of digits and the unread rest. *)
Fixpoint digitpart (s : string) (acc : Z) (count : Z) (after_digit : bool)
  : option (Z * Z * string) :=
  match s with
  | EmptyString => if after_digit then Some (acc, count, s) else None
  | String c s' =>
      match digit_value c with
      | Some d => digitpart s' (10 * acc + d) (count + 1) true
      | None =>
          if Ascii.eqb c "_" then
            if after_digit then
              match s' with
              | String c' _ =>
                  match digit_value c' with
                  | Some _ => digitpart s' acc count false
                  | None => None
                  end
              | EmptyString => None
              end
            else None
          else if after_digit then Some (acc, count, s) else None
      end
  end.

(** An optional sign: [true] for [-]. *)
Definition sign (s : string) : bool * string :=
  match s with
  | String "-" s' => (true, s')
  | String "+" s' => (false, s')
  | _ => (false, s)
  end.

(** [int(s)] in base 10; [None] is [ValueError].  (The limit on the
    number of digits that CPython 3.11 introduced is not modelled.) *)
Definition int (s : string) : option Z :=
  let '(neg, body) := sign (strip s) in
  match digitpart body 0 0 false with
  | Some (n, _, EmptyString) => Some (if neg then - n else n)
  | _ => None
  end.

Definition lower (c : ascii) : ascii :=
  let n := N_of_ascii c in
  if ((65 <=? n) && (n <=? 90))%N then ascii_of_N (n + 32) else c.

Fixpoint lowercase (s : string) : string :=
  match s with
  | EmptyString => EmptyString
  | String c s' => String (lower c) (lowercase s')
  end.

(** The binary64 nearest to [m * 10^e] for a positive [m], ties to
    even. *)
Definition decimal_to_float (neg : bool) (m : positive) (e : Z) : spec_float :=
  if 0 <=? e then
    binary_normalize B64.prec B64.emax ((if neg then Z.neg m else Z.pos m) * 10 ^ e) 0 false
  else B64.div (S754_finite neg m 0) (S754_finite false (Z.to_pos (10 ^ (- e))) 0).

(** The optional exponent of a [floatnumber]. *)
Definition exponent (s : string) : option (Z * string) :=
  match s with
  | String c s' =>
      if Ascii.eqb (lower c) "e" then
        let '(neg, body) := sign s' in
        match digitpart body 0 0 false with
        | Some (n, _, rest) => Some (if neg then - n else n, rest)
        | None => None
        end
      else Some (0, s)
  | EmptyString => Some (0, s)
  end.

(** [number]: the digits read as an integer and the number of them after
    the point. *)
Definition number (s : string) : option (Z * Z * string) :=
  match s with
  | String "." s' =>
      match digitpart s' 0 0 false with
      | Some (n, k, rest) => Some (n, k, rest)
      | None => None
      end
  | _ =>
      match digitpart s 0 0 false with
      | Some (n, _, String "." rest) =>
          match digitpart rest n 0 false with
          | Some (n', k, rest') => Some (n', k, rest')
          | None => Some (n, 0, rest)
          end
      | Some (n, _, rest) => Some (n, 0, rest)
      | None => None
      end
  end.

(** [float(s)]; [None] is [ValueError]. *)
Definition float (s : string) : option spec_float :=
  let '(neg, body) := sign (strip s) in
  let word := lowercase body in
  if (String.eqb word "inf" || String.eqb word "infinity")%bool then Some (S754_infinity neg)
  else if String.eqb word "nan" then Some S754_nan
  else
    match number body with
    | Some (n, k, rest) =>
        match exponent rest with
        | Some (e, EmptyString) =>
            Some (match n with
                  | Z.pos m => decimal_to_float neg m (e - k)
                  | _ => S754_zero neg
                  end)
        | _ => None
        end
    | None => None
    end.
End Py.

(* ===================================================================== *)
(** ** Records and the record parser *)
(* ===================================================================== *)

(** [{'member_name': ..., 'nights': ...}] *)
Record stay := { member_name : string; nights : Z }.

(** [{'paid_by_family': ..., 'expense_type': ..., 'amount': ...,
      'description': ...}] *)
Record expense (F : Type) := {
  paid_by_family : string;
  expense_type : string;
  amount : F;
  description : string;
}.
Arguments paid_by_family {F} _.
Arguments expense_type {F} _.
Arguments amount {F} _.
Arguments description {F} _.

Definition newline : ascii := ascii_of_N 10.

(** The lines a parser looks at: [text.strip().split('\n')], each one
    stripped. *)
Definition stripped_lines (text : string) : list string :=
  List.map Py.strip (Py.split newline (Py.strip text)).

(** The inner loop of [parse_families] over [members_str.split(',')]. *)
Definition add_members (family_name : string) (members : list string)
    (member_to_family : gmap string string) : gmap string string :=
  fold_left (fun acc member =>
               let member := Py.strip member in
               if String.eqb member "" then acc else <[member := family_name]> acc)
            members member_to_family.

Definition parse_families_line (member_to_family : gmap string string) (line : string)
  : gmap string string :=
  if (String.eqb line "" || negb (Py.contains ":" line))%bool then member_to_family
  else
    let '(family_name, members_str) := Py.split_once ":" line in
    add_members (Py.strip family_name) (Py.split "," members_str) member_to_family.

Definition parse_families (text : string) : gmap string string :=
  fold_left parse_families_line (stripped_lines text) ∅.

(** The record of one stripped line of the stays block, if it yields one. *)
Definition parse_stays_line (line : string) : option stay :=
  if (String.eqb line "" || negb (Py.contains "," line))%bool then None
  else
    match Py.split "," line with
    | member :: field :: _ =>
        match Py.int (Py.strip field) with
        | Some n => Some {| member_name := Py.strip member; nights := n |}
        | None => None
        end
    | _ => None
    end.

Definition parse_stays (text : string) : list stay :=
  omap parse_stays_line (stripped_lines text).

(** The record of one stripped line of the expenses block, if it yields
    one. *)
Definition parse_expenses_line (line : string) : option (expense spec_float) :=
  if (String.eqb line "" || negb (Py.contains "," line))%bool then None
  else
    match Py.split "," line with
    | family :: category :: field :: more =>
        match Py.float (Py.strip field) with
        | Some x =>
            Some {| paid_by_family := Py.strip family;
                    expense_type := Py.strip category;
                    amount := x;
                    description := match more with d :: _ => Py.strip d | [] => "" end |}
        | None => None
        end
    | _ => None
    end.

Definition parse_expenses (text : string) : list (expense spec_float) :=
  omap parse_expenses_line (stripped_lines text).

(* ===================================================================== *)
(** ** Aggregator *)
(* ===================================================================== *)

(** The exceptions the calculation can raise. *)
Inductive py_exception :=
  | KeyError (key : string)
  | ZeroDivisionError
  | OverflowError.

Inductive result (A : Type) :=
  | Ok (a : A)
  | Raise (e : py_exception).
Arguments Ok {A} _.
Arguments Raise {A} _.

Definition bind {A B} (r : result A) (k : A -> result B) : result B :=
  match r with
  | Ok a => k a
  | Raise e => Raise e
  end.

Fixpoint map_result {A B} (f : A -> result B) (l : list A) : result (list B) :=
  match l with
  | [] => Ok []
  | a :: l' => bind (f a) (fun b => bind (map_result f l') (fun bs => Ok (b :: bs)))
  end.

(** [calculate_person_nights] from a given state of [family_nights]:
    [member_to_family[member]] raises [KeyError] on an absent member. *)
Fixpoint person_nights_from (stays : list stay) (member_to_family : gmap string string)
    (family_nights : gmap string Z) : result (gmap string Z) :=
  match stays with
  | [] => Ok family_nights
  | stay :: rest =>
      match member_to_family !! member_name stay with
      | None => Raise (KeyError (member_name stay))
      | Some family =>
          person_nights_from rest member_to_family
            (<[family := default 0 (family_nights !! family) + nights stay]> family_nights)
      end
  end.

Definition calculate_person_nights (stays : list stay) (member_to_family : gmap string string)
  : result (gmap string Z) :=
  person_nights_from stays member_to_family ∅.

Section Aggregator.
Context {F : Type} `{FloatOps F}.

(** [payments[family] += amount] on a [defaultdict(float)]. *)
Definition add_payment (payments : gmap string F) (e : expense F) : gmap string F :=
  <[paid_by_family e := f_add (default f_zero (payments !! paid_by_family e)) (amount e)]> payments.

Definition calculate_family_payments (expenses : list (expense F)) : gmap string F :=
  fold_left add_payment expenses ∅.

Definition calculate_expense_totals_by_type (expenses : list (expense F)) : gmap string F :=
  fold_left (fun totals e =>
               <[expense_type e := f_add (default f_zero (totals !! expense_type e)) (amount e)]> totals)
            expenses ∅.
End Aggregator.

(* ===================================================================== *)
(** ** The calculation cycle: the [if calculate_clicked:] block *)
(* ===================================================================== *)

Section Cycle.
Context {F : Type} `{FloatOps F}.

(** A Python number that is an [int] or a [float]: [sum] of no expense
    and [family_payments.get(family, 0)] of an absent family are the int
    [0]. *)
Inductive py_number :=
  | PyInt (n : Z)
  | PyFloat (x : F).

Definition to_float (x : py_number) : result F :=
  match x with
  | PyInt n => match f_of_int n with Some y => Ok y | None => Raise OverflowError end
  | PyFloat y => Ok y
  end.

(** [sum(e['amount'] for e in expenses)]: the amounts added left to
    right onto the int [0].  (From CPython 3.12 on [sum] carries a
    compensation term over floats; it vanishes for a single amount and in
    exact arithmetic.) *)
Definition sum_amounts (expenses : list (expense F)) : py_number :=
  match expenses with
  | [] => PyInt 0
  | _ => PyFloat (fold_left f_add (List.map amount expenses) f_zero)
  end.

(** [sum(family_nights.values())] *)
Definition sum_values (family_nights : gmap string Z) : Z :=
  map_fold (fun _ n acc => acc + n) 0 family_nights.

(** [total_expenses / total_nights] *)
Definition true_divide (x : py_number) (n : Z) : result F :=
  match x with
  | PyInt k =>
      if n =? 0 then Raise ZeroDivisionError
      else match f_int_div k n with Some q => Ok q | None => Raise OverflowError end
  | PyFloat y =>
      match f_of_int n with
      | None => Raise OverflowError
      | Some d => if n =? 0 then Raise ZeroDivisionError else Ok (f_div y d)
      end
  end.

(** The body of [for family in all_families]. *)
Definition family_balance (family_nights : gmap string Z) (family_payments : gmap string F)
    (cost_per_night : F) (family : string) : result (string * F) :=
  let nights := default 0 (family_nights !! family) in
  let paid := match family_payments !! family with Some p => PyFloat p | None => PyInt 0 end in
  bind (to_float (PyInt nights)) (fun n =>
  let owes := f_mul n cost_per_night in
  bind (to_float paid) (fun p => Ok (family, f_sub p owes))).

(** What is stored in [st.session_state['results']]. *)
Record results := {
  r_member_to_family : gmap string string;
  r_stays : list stay;
  r_expenses : list (expense F);
  r_family_nights : gmap string Z;
  r_family_payments : gmap string F;
  r_total_expenses : py_number;
  r_total_nights : Z;
  r_cost_per_night : F;
  r_balances : list (string * F);
  r_settlements : list (string * string * F);
  r_all_families : gset string;
}.

(** Validation of the stays: the members not in
    [set(member_to_family.keys())], in stay order. *)
Definition unknown_members (member_to_family : gmap string string) (stays : list stay)
  : list string :=
  List.filter (fun member => negb (bool_decide (member ∈ dom member_to_family)))
              (List.map member_name stays).

(** Validation of the expenses: the paying families not in
    [set(member_to_family.values())], in expense order. *)
Definition unknown_families (member_to_family : gmap string string)
    (expenses : list (expense F)) : list string :=
  List.filter (fun family =>
                 negb (bool_decide (family ∈ (map_img member_to_family : gset string))))
              (List.map paid_by_family expenses).

(** Lines 426-438: aggregates, rate and balances. *)
Definition compute_balances (member_to_family : gmap string string) (stays : list stay)
    (expenses : list (expense F))
  : result (gmap string Z * gmap string F * py_number * Z * F * gset string * list (string * F)) :=
  bind (calculate_person_nights stays member_to_family) (fun family_nights =>
  let family_payments := calculate_family_payments expenses in
  let total_expenses := sum_amounts expenses in
  let total_nights := sum_values family_nights in
  bind (true_divide total_expenses total_nights) (fun cost_per_night =>
  let all_families : gset string := dom family_nights ∪ dom family_payments in
  bind (map_result (family_balance family_nights family_payments cost_per_night)
                   (elements all_families)) (fun balances =>
  Ok (family_nights, family_payments, total_expenses, total_nights, cost_per_night,
      all_families, balances)))).

(** How a run of the block ends.  [st.stop()] after a failed validation
    ends the script run (Streamlit's control exception is not an
    [Exception], so the handler below does not see it); the generic handler
    catches every exception of the [try] body. *)
Inductive outcome :=
  | UnknownMembers (names : list string)
      (* st.error("Unknown member(s) in Stays: " + ', '.join(names)) *)
  | UnknownFamilies (names : gset string)
      (* st.error("Unknown family/families in Expenses: " + ', '.join(names)) *)
  | ProcessingError (e : py_exception)
      (* except Exception as e: st.error("Error processing data: " + str(e)) *)
  | Results (r : results).

(** The [try] body on parsed input; [None] when the settlement loop has
    not exited within [fuel] iterations. *)
Definition calculate_cycle (fuel : nat) (member_to_family : gmap string string)
    (stays : list stay) (expenses : list (expense F)) : option outcome :=
  match unknown_members member_to_family stays with
  | (_ :: _) as names => Some (UnknownMembers names)
  | [] =>
      match unknown_families member_to_family expenses with
      | (_ :: _) as names => Some (UnknownFamilies (list_to_set names))
      | [] =>
          match compute_balances member_to_family stays expenses with
          | Raise e => Some (ProcessingError e)
          | Ok (family_nights, family_payments, total_expenses, total_nights,
                cost_per_night, all_families, balances) =>
              match calculate_settlements fuel balances with
              | None => None
              | Some settlements =>
                  Some (Results {|
                    r_member_to_family := member_to_family;
                    r_stays := stays;
                    r_expenses := expenses;
                    r_family_nights := family_nights;
                    r_family_payments := family_payments;
                    r_total_expenses := total_expenses;
                    r_total_nights := total_nights;
                    r_cost_per_night := cost_per_night;
                    r_balances := balances;
                    r_settlements := settlements;
                    r_all_families := all_families |})
              end
          end
      end
  end.

(** The error kinds of the specification and the one each outcome is
    reported as: the code has a handler for the two validation failures
    and a single generic one for every exception. *)
Inductive error_kind :=
  | UnknownMemberError
  | UnknownFamilyError
  | DivisionByZeroError
  | GenericError.

Definition reported_as (o : outcome) : option error_kind :=
  match o with
  | UnknownMembers _ => Some UnknownMemberError
  | UnknownFamilies _ => Some UnknownFamilyError
  | ProcessingError _ => Some GenericError
  | Results _ => None
  end.

(** [st.session_state] after the block: every failure deletes
    ['results'], a success replaces it. *)
Definition session_after (o : outcome) : option results :=
  match o with
  | Results r => Some r
  | _ => None
  end.
End Cycle.
Arguments py_number F : clear implicits.
Arguments results F : clear implicits.
Arguments outcome F : clear implicits.

(** The whole block on the three text areas, with the session state before
    and after.  Nothing runs when one of the texts is empty. *)
Definition calculate_clicked (fuel : nat) (families_data stays_data expenses_data : string)
    (session : option (results spec_float))
  : option (option (outcome spec_float) * option (results spec_float)) :=
  if (String.eqb families_data "" || String.eqb stays_data "" || String.eqb expenses_data "")%bool
  then Some (None, session)
  else
    match calculate_cycle fuel (parse_families families_data) (parse_stays stays_data)
                          (parse_expenses expenses_data) with
    | None => None
    | Some o => Some (Some o, session_after o)
    end.

(* ===================================================================== *)
(** ** String formatting used by the reports (ASCII) *)
(* ===================================================================== *)

Module Fmt.
(** [s * n] *)
Fixpoint times (s : string) (n : nat) : string :=
  match n with
  | O => EmptyString
  | S n' => s +:+ times s n'
  end.

(** [format(s, '<w')], the default alignment of a [str], and
    [format(s, '>w')], the default alignment of a number: padding with
    spaces up to width [w], never cutting. *)
Definition ljust (w : nat) (s : string) : string := s +:+ times " " (w - String.length s).

Definition rjust (w : nat) (s : string) : string := times " " (w - String.length s) +:+ s.

(** [str(n)] for an [int]. *)
Definition str (n : Z) : string := DecimalString.NilZero.string_of_int (Z.to_int n).

Definition upper (c : ascii) : ascii :=
  let n := N_of_ascii c in
  if ((97 <=? n) && (n <=? 122))%N then ascii_of_N (n - 32) else c.

(** [s.capitalize()]: the first character in upper case, the others in
    lower case. *)
Definition capitalize (s : string) : string :=
  match s with
  | EmptyString => EmptyString
  | String c s' => String (upper c) (Py.lowercase s')
  end.

(** [sep.join(lines)] *)
Definition join (sep : string) (lines : list string) : string := String.concat sep lines.

(** The integer nearest to [n * 2^e], ties to even. *)
Definition round_scaled (n : Z) (e : Z) : Z :=
  if 0 <=? e then n * 2 ^ e
  else
    let d := 2 ^ (- e) in
    let q := n / d in
    let r := n mod d in
    if 2 * r <? d then q
    else if d <? 2 * r then q + 1
    else if Z.even q then q else q + 1.

Definition two_digits (k : Z) : string := if k <? 10 then "0" +:+ str k else str k.

(** [format(x, '.2f')] for a [float]: the decimal with two places nearest
    to the exact value of [x], ties to even; the sign is kept when the
    digits round to zero. *)
Definition fixed2 (x : spec_float) : string :=
  match x with
  | S754_nan => "nan"
  | S754_infinity s => if s then "-inf" else "inf"
  | S754_zero s => if s then "-0.00" else "0.00"
  | S754_finite s m e =>
      let cents := round_scaled (Z.pos m * 100) e in
      (if s then "-" else "") +:+ str (cents / 100) +:+ "." +:+ two_digits (cents mod 100)
  end.

(** The same for a number that may be an [int], which is converted to
    [float] first. *)
Definition fixed2_number (x : py_number spec_float) : result string :=
  bind (to_float x) (fun y => Ok (fixed2 y)).

(** The euro sign, as its three bytes in UTF-8. *)
Definition euro : string :=
  String (ascii_of_N 226) (String (ascii_of_N 130) (String (ascii_of_N 172) EmptyString)).

Definition nl : string := String (ascii_of_N 10) EmptyString.

(** [csv.writer] in its default dialect: a field is put in double quotes,
    with every double quote in it doubled, when it holds a comma, a double
    quote, a carriage return or a newline; a row ends in [\r\n]; a row of
    one empty field is written as two double quotes. *)
Definition quote : ascii := ascii_of_N 34.

Definition crlf : string := String (ascii_of_N 13) (String (ascii_of_N 10) EmptyString).

Definition needs_quotes (field : string) : bool :=
  Py.contains "," field || Py.contains quote field
  || Py.contains (ascii_of_N 13) field || Py.contains (ascii_of_N 10) field.

Fixpoint double_quotes (field : string) : string :=
  match field with
  | EmptyString => EmptyString
  | String c rest =>
      if Ascii.eqb c quote then String c (String c (double_quotes rest))
      else String c (double_quotes rest)
  end.

Definition csv_field (field : string) : string :=
  if needs_quotes field then String quote (double_quotes field) +:+ String quote EmptyString
  else field.

Definition writerow (fields : list string) : string :=
  match fields with
  | [EmptyString] => String quote (String quote crlf)
  | _ => join "," (List.map csv_field fields) +:+ crlf
  end.
End Fmt.

(* ===================================================================== *)
(** ** The reports: [generate_report] and [generate_csv_report] *)
(* ===================================================================== *)

Section Reports.
Import Fmt.

(** Python's [<] on the tuples the reports sort. *)
Definition item_lt (x y : string * spec_float) : bool :=
  if String.eqb x.1 y.1 then SFltb x.2 y.2 else String.ltb x.1 y.1.

Definition member_nights_lt (x y : string * Z) : bool :=
  if String.eqb x.1 y.1 then x.2 <? y.2 else String.ltb x.1 y.1.

Definition stay_row_lt (x y : string * string * Z) : bool :=
  if String.eqb x.1.1 y.1.1 then member_nights_lt (x.1.2, x.2) (y.1.2, y.2)
  else String.ltb x.1.1 y.1.1.

(** [sorted(keys)] for a set of strings. *)
Definition sorted_names (names : gset string) : list string :=
  list_sort String.ltb (elements names).

(** [balances[family]] *)
Definition lookup_balance (balances : list (string * spec_float)) (family : string)
  : result spec_float :=
  match List.find (fun x => String.eqb x.1 family) balances with
  | Some x => Ok x.2
  | None => Raise (KeyError family)
  end.

(** Lines 196-202: the expense summary. *)
Definition summary_line (item : string * spec_float) : string :=
  "  " +:+ ljust 20 (capitalize item.1) +:+ " " +:+ euro +:+ rjust 10 (fixed2 item.2).

(** Lines 208-220: the expenses grouped by paying family. *)
Definition family_expenses (expenses : list (expense spec_float))
  : gmap string (list (expense spec_float)) :=
  fold_left (fun groups e =>
               <[paid_by_family e := default [] (groups !! paid_by_family e) ++ [e]]> groups)
            expenses ∅.

Definition detail_line (e : expense spec_float) : string :=
  "    " +:+ ljust 15 (expense_type e) +:+ " " +:+ euro +:+ rjust 10 (fixed2 (amount e))
  +:+ (if String.eqb (description e) "" then "" else " - " +:+ description e).

Definition family_detail_lines (family : string) (group : list (expense spec_float))
  : result (list string) :=
  bind (fixed2_number (sum_amounts group)) (fun family_total =>
  Ok ([nl +:+ "  " +:+ family +:+ " Family:"]
      ++ List.map detail_line group
      ++ ["    " +:+ ljust 15 "Subtotal" +:+ " " +:+ euro +:+ rjust 10 family_total])).

(** Lines 228-243: the stays grouped by family;
    [member_to_family[member]] raises [KeyError] on an absent member. *)
Fixpoint family_stays_from (stays : list stay) (member_to_family : gmap string string)
    (groups : gmap string (list (string * Z))) : result (gmap string (list (string * Z))) :=
  match stays with
  | [] => Ok groups
  | stay :: rest =>
      match member_to_family !! member_name stay with
      | None => Raise (KeyError (member_name stay))
      | Some family =>
          family_stays_from rest member_to_family
            (<[family := default [] (groups !! family) ++ [(member_name stay, nights stay)]]>
               groups)
      end
  end.

Definition stay_line (x : string * Z) : string :=
  "    " +:+ ljust 15 x.1 +:+ " " +:+ rjust 3 (str x.2) +:+ " nights".

(** The lines of one family and its [family_total]. *)
Definition family_stay_lines (family : string) (group : list (string * Z))
  : list string * Z :=
  let rows := list_sort member_nights_lt group in
  let family_total := fold_left Z.add (List.map snd rows) 0 in
  ([nl +:+ "  " +:+ family +:+ " Family:"]
   ++ List.map stay_line rows
   ++ ["    " +:+ ljust 15 "Subtotal" +:+ " " +:+ rjust 3 (str family_total) +:+ " nights"],
   family_total).

(** The lines of all families and [total_nights]. *)
Definition stay_summary (groups : gmap string (list (string * Z))) : list string * Z :=
  fold_left (fun acc family =>
               let '(lines, family_total) :=
                 family_stay_lines family (default [] (groups !! family)) in
               (acc.1 ++ lines, acc.2 + family_total))
            (sorted_names (dom groups)) ([], 0).

(** Lines 260-266: one line of the balance sheet. *)
Definition balance_line (family_nights : gmap string Z) (family_payments : gmap string spec_float)
    (cost_per_night : spec_float) (balances : list (string * spec_float)) (family : string)
  : result string :=
  let nights := default 0 (family_nights !! family) in
  let paid := match family_payments !! family with Some p => PyFloat p | None => PyInt 0 end in
  bind (to_float (PyInt nights)) (fun n =>
  let owes := B64.mul n cost_per_night in
  bind (lookup_balance balances family) (fun balance =>
  let balance_str :=
    if SFleb (S754_zero false) balance then euro +:+ rjust 10 (fixed2 balance)
    else "-" +:+ euro +:+ rjust 9 (fixed2 (SFabs balance)) in
  bind (fixed2_number paid) (fun paid_str =>
  Ok ("  " +:+ ljust 10 family +:+ " " +:+ rjust 8 (str nights) +:+ " " +:+ euro
      +:+ rjust 10 (fixed2 owes) +:+ " " +:+ euro +:+ rjust 10 paid_str +:+ " "
      +:+ balance_str)))).

Definition settlement_line (t : string * string * spec_float) : string :=
  "  " +:+ t.1.1 +:+ " pays " +:+ t.1.2 +:+ ": " +:+ euro +:+ fixed2 t.2.

Definition generate_report (member_to_family : gmap string string) (stays : list stay)
    (expenses : list (expense spec_float)) (family_nights : gmap string Z)
    (family_payments : gmap string spec_float) (total_expenses : py_number spec_float)
    (balances : list (string * spec_float)) (settlements : list (string * string * spec_float))
  : result string :=
  let totals_by_type := calculate_expense_totals_by_type expenses in
  let summary := List.map summary_line (list_sort item_lt (map_to_list totals_by_type)) in
  bind (fixed2_number total_expenses) (fun total =>
  let groups := family_expenses expenses in
  bind (map_result (fun family => family_detail_lines family (default [] (groups !! family)))
                   (sorted_names (dom groups))) (fun details =>
  bind (family_stays_from stays member_to_family ∅) (fun family_stays =>
  let '(stay_lines, total_nights) := stay_summary family_stays in
  bind (true_divide total_expenses total_nights) (fun cost_per_night =>
  let all_families : gset string := dom family_nights ∪ dom family_payments in
  bind (map_result (balance_line family_nights family_payments cost_per_night balances)
                   (sorted_names all_families)) (fun balance_lines =>
  Ok (join nl
        ([times "=" 50; "EXPENSE SUMMARY"; times "=" 50]
         ++ summary
         ++ [times "-" 50;
             "  " +:+ ljust 20 "TOTAL" +:+ " " +:+ euro +:+ rjust 10 total;
             "";
             times "=" 50; "EXPENSE DETAILS (by Family)"; times "=" 50]
         ++ concat details
         ++ ["";
             times "=" 50; "STAY SUMMARY (Person-Nights)"; times "=" 50]
         ++ stay_lines
         ++ [times "-" 50;
             "  TOTAL PERSON-NIGHTS: " +:+ str total_nights;
             "";
             times "=" 50; "BALANCE SHEET"; times "=" 50;
             nl +:+ "  Cost per person-night: " +:+ euro +:+ fixed2 cost_per_night;
             "";
             "  " +:+ ljust 10 "Family" +:+ " " +:+ rjust 8 "Nights" +:+ " " +:+ rjust 12 "Owes"
             +:+ " " +:+ rjust 12 "Paid" +:+ " " +:+ rjust 12 "Balance";
             "  " +:+ times "-" 54]
         ++ balance_lines
         ++ ["";
             times "=" 50; "SETTLEMENTS"; times "=" 50]
         ++ match settlements with
            | [] => [nl +:+ "  No settlements needed - all balanced!"]
            | _ => "" :: List.map settlement_line settlements
            end))))))).

(** Lines 296-301: one row of the balance sheet of the CSV report. *)
Definition csv_balance_row (family_nights : gmap string Z)
    (family_payments : gmap string spec_float) (cost_per_night : spec_float)
    (balances : list (string * spec_float)) (family : string) : result string :=
  let nights := default 0 (family_nights !! family) in
  let paid := match family_payments !! family with Some p => PyFloat p | None => PyInt 0 end in
  bind (to_float (PyInt nights)) (fun n =>
  let owes := B64.mul n cost_per_night in
  bind (lookup_balance balances family) (fun balance =>
  bind (fixed2_number paid) (fun paid_str =>
  Ok (writerow [family; str nights; fixed2 owes; paid_str; fixed2 balance])))).

Definition csv_expense_row (e : expense spec_float) : string :=
  writerow [paid_by_family e; expense_type e; fixed2 (amount e); description e].

(** Line 332: [member_to_family[s['member_name']]] for every stay. *)
Definition stay_with_family (member_to_family : gmap string string) (s : stay)
  : result (string * string * Z) :=
  match member_to_family !! member_name s with
  | Some family => Ok (family, member_name s, nights s)
  | None => Raise (KeyError (member_name s))
  end.

Definition generate_csv_report (member_to_family : gmap string string) (stays : list stay)
    (expenses : list (expense spec_float)) (family_nights : gmap string Z)
    (family_payments : gmap string spec_float) (total_expenses : py_number spec_float)
    (balances : list (string * spec_float)) (settlements : list (string * string * spec_float))
  : result string :=
  let total_nights := sum_values family_nights in
  bind (true_divide total_expenses total_nights) (fun cost_per_night =>
  let all_families : gset string := dom family_nights ∪ dom family_payments in
  bind (map_result (csv_balance_row family_nights family_payments cost_per_night balances)
                   (sorted_names all_families)) (fun balance_rows =>
  let settlement_rows :=
    match settlements with
    | [] => [writerow ["No settlements needed"]]
    | _ => List.map (fun t => writerow [t.1.1; t.1.2; fixed2 t.2]) settlements
    end in
  let expense_rows :=
    List.map csv_expense_row
      (list_sort (fun x y => String.ltb (paid_by_family x) (paid_by_family y)) expenses) in
  bind (map_result (stay_with_family member_to_family) stays) (fun stays_with_family =>
  let stay_rows :=
    List.map (fun x => writerow [x.1.1; x.1.2; str x.2])
             (list_sort stay_row_lt stays_with_family) in
  Ok (join ""
        (["BALANCE SHEET" +:+ nl; writerow ["Family"; "Nights"; "Owes"; "Paid"; "Balance"]]
         ++ balance_rows
         ++ [nl; "SETTLEMENTS" +:+ nl; writerow ["From"; "To"; "Amount"]]
         ++ settlement_rows
         ++ [nl; "EXPENSE DETAILS" +:+ nl; writerow ["Family"; "Type"; "Amount"; "Description"]]
         ++ expense_rows
         ++ [nl; "STAY DETAILS" +:+ nl; writerow ["Family"; "Member"; "Nights"]]
         ++ stay_rows))))).
End Reports.

(* ===================================================================== *)
(** ** The settlement procedure as the specification words it *)
(* ===================================================================== *)

Section SpecSettlement.
Context {F : Type} `{FloatOps F}.

(** "Partition families into debtors (balance < -0.01, debt = -balance)
    and creditors (balance > 0.01, credit = balance)." *)
Definition spec_debtors (balances : list (string * F)) : list (string * F) :=
  List.map (fun x => (x.1, f_neg x.2))
           (List.filter (fun x => f_lt x.2 (f_neg f_cent)) balances).

Definition spec_creditors (balances : list (string * F)) : list (string * F) :=
  List.filter (fun x => f_lt f_cent x.2) balances.

(** "Descending by amount, ties broken by ascending family name": [x]
    goes before [y]. *)
Definition spec_before (x y : string * F) : bool :=
  f_lt y.2 x.2 || (f_eq x.2 y.2 && String.ltb x.1 y.1).

(** "Repeat while both lists are non-empty: take the heads, let amount =
    min(debt, credit), emit a transfer if amount > 0.01, decrement both,
    remove a head whose remainder is < 0.01." *)
Fixpoint spec_rounds (fuel : nat) (debtors creditors : list (string * F))
  : option (list (string * string * F)) :=
  match debtors, creditors with
  | [], _ | _, [] => Some []
  | d :: debtors_tail, c :: creditors_tail =>
      match fuel with
      | O => None
      | S fuel' =>
          let amount := py_min d.2 c.2 in
          let remaining_debt := f_sub d.2 amount in
          let remaining_credit := f_sub c.2 amount in
          let debtors_next :=
            if f_lt remaining_debt f_cent then debtors_tail
            else (d.1, remaining_debt) :: debtors_tail in
          let creditors_next :=
            if f_lt remaining_credit f_cent then creditors_tail
            else (c.1, remaining_credit) :: creditors_tail in
          match spec_rounds fuel' debtors_next creditors_next with
          | None => None
          | Some later =>
              Some (if f_lt f_cent amount then (d.1, c.1, amount) :: later else later)
          end
      end
  end.

Definition spec_settlements (fuel : nat) (balances : list (string * F))
  : option (list (string * string * F)) :=
  spec_rounds fuel (list_sort spec_before (spec_debtors balances))
                   (list_sort spec_before (spec_creditors balances)).
End SpecSettlement.

(* ===================================================================== *)
(** ** Applying transfers to a balance mapping *)
(* ===================================================================== *)

Section Apply.
Context {F : Type} `{FloatOps F}.






End Apply.

(* ===================================================================== *)
(** ** The statements of the specification *)
(* ===================================================================== *)

(** The binary64 value of a float literal. *)
Definition literal (s : string) : spec_float := default S754_nan (Py.float s).

Definition newline_string : string := String newline "".





(** "The number of transfers emitted is <= (number of non-zero-balance
    families - 1)", read over the integers. *)
Definition transfer_bound_as_stated (balances : list (string * spec_float)) : Prop :=
  forall fuel ts, calculate_settlements fuel balances = Some ts ->
    Z.of_nat (List.length ts) <= Z.of_nat (count_outside balances) - 1.

(** "Fails with a distinct DivisionByZeroError." *)
Definition zero_nights_as_stated (o : outcome spec_float) : Prop :=
  reported_as o = Some DivisionByZeroError.

(** "As a set, sorted for display, duplicates collapsed." *)
Definition member_names_as_stated (o : outcome spec_float) : Prop :=
  match o with
  | UnknownMembers names =>
      Sorted (fun a b => String.leb a b = true) names /\ NoDup names
  | _ => True
  end.

(** "Every StayRecord has nights >= 0 and every ExpenseRecord has
    amount >= 0." *)
Definition parsed_numbers_as_stated (stays_text expenses_text : string) : Prop :=
  Forall (fun s => 0 <= nights s) (parse_stays stays_text) /\
  Forall (fun e => SFleb (S754_zero false) (amount e) = true) (parse_expenses expenses_text).

(** The text holds no minus sign. *)
Definition no_minus (s : string) : Prop := Py.contains "-" s = false.

(** A float that is zero or positive, or NaN. *)
Definition nonnegative_or_nan (x : spec_float) : Prop :=
  B64.is_nan x = true \/ SFleb (S754_zero false) x = true.

(** The part of a run the scenarios of the specification speak of: total
    person-nights, cost per night, balances and settlements. *)
Definition summary (run : option (option (outcome spec_float) * option (results spec_float)))
  : option (Z * spec_float * list (string * spec_float) * list (string * string * spec_float)) :=
  match run with
  | Some (Some (Results r), _) =>
      Some (r_total_nights r, r_cost_per_night r, r_balances r, r_settlements r)
  | _ => None
  end.

(** *** Inputs used below *)

(** The scenario of the specification: its balances in binary64, and its
    input in exact arithmetic. *)
Definition scenario_balances : list (string * spec_float) :=
  [("Adams"%string, literal "25"); ("Oiler"%string, literal "-25")].

Definition scenario_families : gmap string string :=
  <["John"%string := "Adams"%string]>
    (<["Mary"%string := "Adams"%string]> (<["Bob"%string := "Oiler"%string]> ∅)).

Definition scenario_stays : list stay :=
  [ {| member_name := "John"; nights := 5 |};
    {| member_name := "Mary"; nights := 5 |};
    {| member_name := "Bob"; nights := 10 |} ].


(** Two debtors of 1.009 against creditors of 1, 1 and 0.018. *)
Definition leftover_balances : list (string * spec_float) :=
  [("A1"%string, literal "-1.009"); ("A2"%string, literal "-1.009");
   ("B1"%string, literal "1"); ("B2"%string, literal "1"); ("B3"%string, literal "0.018")].

(* ===================================================================== *)
(** ** Notions used in the proofs *)
(* ===================================================================== *)

(** *** The settlement loop in binary64 *)

(** Head values from which no iteration removes an entry any more. *)
Definition stuck (d c : spec_float) : Prop :=
  d = S754_nan \/ (d = S754_infinity false /\ c = S754_nan).

(** An entry of a list: at least [0.01] and not NaN; a finite one. *)
Definition entry_ok (x : string * spec_float) : Prop :=
  B64.is_nan x.2 = false /\ SFltb x.2 B64.cent = false.

Definition entry_finite (x : string * spec_float) : Prop :=
  B64.is_finite x.2 = true /\ SFltb x.2 B64.cent = false.

(** Only the head may be an infinite remainder. *)
Definition fresh_tail (l : list (string * spec_float)) : Prop :=
  match l with
  | [] => True
  | x :: t => entry_ok x /\ Forall entry_finite t
  end.

Definition loop_inv (ds cs : list (string * spec_float)) : Prop :=
  (Forall entry_finite ds /\ fresh_tail cs) \/ (fresh_tail ds /\ Forall entry_finite cs).

(** *** Sums in exact arithmetic *)




(** The sum of a list of rationals, and of a function over a list of
    families. *)
Definition qsum (l : list Q) : Q := fold_right Qplus 0%Q l.

Definition sum_over (families : list string) (g : string -> Q) : Q :=
  qsum (List.map g families).


Definition nights_of (family_nights : gmap string Z) (family : string) : Q :=
  inject_Z (default 0%Z (family_nights !! family)).

(** *** What the aggregators add up *)

(** The stays of the members of a family, in stay order, and the nights
    of a list of stays. *)
Definition stays_of (member_to_family : gmap string string) (stays : list stay)
    (family : string) : list stay :=
  List.filter (fun s => bool_decide (member_to_family !! member_name s = Some family)) stays.

Definition total_of_nights (stays : list stay) : Z :=
  fold_right Z.add 0 (List.map nights stays).

(** The amounts a family has paid and the amounts of a category, in
    expense order. *)
Definition paid_amounts {F} (family : string) (expenses : list (expense F)) : list F :=
  List.map amount (List.filter (fun e => String.eqb (paid_by_family e) family) expenses).

Definition typed_amounts {F} (category : string) (expenses : list (expense F)) : list F :=
  List.map amount (List.filter (fun e => String.eqb (expense_type e) category) expenses).

(** An expense with its category in the place of the paying family. *)
Definition by_type {F} (e : expense F) : expense F :=
  {| paid_by_family := expense_type e; expense_type := paid_by_family e;
     amount := amount e; description := description e |}.

(** *** The order of the sorted lists *)

(** The place of a float that is not NaN in the order of [<]: floats
    compare as these triples do, lexicographically. *)
Definition rank (x : spec_float) : Z * Z * Z :=
  match x with
  | S754_infinity true => (-2, 0, 0)
  | S754_finite true m e => (-1, - e, Z.neg m)
  | S754_zero _ | S754_nan => (0, 0, 0)
  | S754_finite false m e => (1, e, Z.pos m)
  | S754_infinity false => (2, 0, 0)
  end.

Definition rank_lt (r r' : Z * Z * Z) : Prop :=
  r.1.1 < r'.1.1 \/ (r.1.1 = r'.1.1 /\ (r.1.2 < r'.1.2 \/ (r.1.2 = r'.1.2 /\ r.2 < r'.2))).

Definition name_lt (a b : string) : Prop := String.compare a b = Lt.

(** [x] is sorted before [y]: the larger amount first, the smaller name
    first among equal amounts. *)
Definition goes_before (x y : string * spec_float) : Prop :=
  rank_lt (rank y.2) (rank x.2) \/ (rank x.2 = rank y.2 /\ name_lt x.1 y.1).

Definition not_nan (x : string * spec_float) : Prop := B64.is_nan x.2 = false.

(** *** Lines and fields of the text blocks *)

(** [c not in s] *)
Definition absent (c : ascii) (s : string) : Prop := Py.contains c s = false.

(** A field as a parser stores it: stripped, and free of the separators
    it was cut at. *)
Definition tidy (field : string) : Prop :=
  Py.strip field = field /\ absent "," field /\ absent newline field.

Definition nonblank (lines : list string) : list string :=
  List.filter (fun line => negb (String.eqb line "")) lines.

(** The family a line of the family block names and the members it
    lists. *)
Definition line_family (line : string) : string := Py.strip (Py.split_once ":" line).1.

Definition line_members (line : string) : list string :=
  if Py.contains ":" line then
    List.filter (fun member => negb (String.eqb member ""))
                (List.map Py.strip (Py.split "," (Py.split_once ":" line).2))
  else [].

(** The families of the lines that list a member, in line order. *)
Definition families_listing (member : string) (text : string) : list string :=
  List.map line_family
    (List.filter (fun line => bool_decide (member ∈ line_members line)) (stripped_lines text)).

(** *** The scenario of the specification as text *)

Definition scenario_families_text : string :=
  "Adams:John,Mary" ++ newline_string ++ "Oiler:Bob".

Definition scenario_stays_text : string :=
  "John,5" ++ newline_string ++ "Mary,5" ++ newline_string ++ "Bob,10".

Definition scenario_expenses_text : string :=
  "Adams,rent,100" ++ newline_string ++ "Oiler,food,50".

(** *** Nights of a group of the report *)

Definition nights_of_group (group : list (string * Z)) : Z :=
  fold_left Z.add (List.map snd group) 0.

(** *** Budgets of the settlement in exact arithmetic *)



(* ===================================================================== *)
(** * Properties *)
(* ===================================================================== *)

(* ===================================================================== *)
(** ** The concrete scenarios of the specification *)
(* ===================================================================== *)

(** "Expect totalNights=20, costPerUnit=7.5, Adams balance +25, Oiler
    balance -25.  Settlement: Oiler pays Adams 25.00." *)
Example scenario_two_families :
  summary (calculate_clicked 2
             ("Adams:John,Mary" ++ newline_string ++ "Oiler:Bob")
             ("John,5" ++ newline_string ++ "Mary,5" ++ newline_string ++ "Bob,10")
             ("Adams,rent,100," ++ newline_string ++ "Oiler,food,50,") None)
  = Some (20, literal "7.5",
          [("Oiler"%string, literal "-25"); ("Adams"%string, literal "25")],
          [("Oiler"%string, "Adams"%string, literal "25")]).
Proof. vm_compute. reflexivity. Qed.

(** "A stays line [BadLine] (no comma) is dropped silently"; and payments
    proportional to the nights give an empty settlement list. *)
Example scenario_malformed_line_and_all_balanced :
  summary (calculate_clicked 0
             ("Adams:John" ++ newline_string ++ "Oiler:Bob")
             ("John,5" ++ newline_string ++ "BadLine" ++ newline_string ++ "Bob,10")
             ("Adams,rent,50" ++ newline_string ++ "Oiler,food,100") None)
  = Some (15, literal "10",
          [("Oiler"%string, literal "0"); ("Adams"%string, literal "0")], []).
Proof. vm_compute. reflexivity. Qed.

(** "Stays references Zack not present in Families: UnknownMemberError
    containing Zack." *)
Example scenario_unknown_member :
  calculate_clicked 0 "Adams:John" "Zack,5" "Adams,rent,50" None
  = Some (Some (UnknownMembers ["Zack"%string]), None).
Proof. vm_compute. reflexivity. Qed.

(** "Expenses non-empty, Stays empty": with an empty stays text the block
    does not run at all and the session is left as it was; with a stays
    text that yields no record the division fails. *)
Example scenario_no_stays (session : option (results spec_float)) :
  calculate_clicked 0 "Adams:John" "" "Adams,rent,50" session = Some (None, session)
  /\ calculate_clicked 0 "Adams:John" "BadLine" "Adams,rent,50" session
     = Some (Some (ProcessingError ZeroDivisionError), None).
Proof. split; vm_compute; reflexivity. Qed.

(* ===================================================================== *)
(** ** The aggregator and member validation *)
(* ===================================================================== *)

Lemma unknown_members_spec (member_to_family : gmap string string) stays name :
  In name (unknown_members member_to_family stays) <->
  exists s, In s stays /\ member_name s = name /\ member_to_family !! name = None.
Proof.
  unfold unknown_members. rewrite List.filter_In, List.in_map_iff, negb_true_iff.
  rewrite bool_decide_eq_false, not_elem_of_dom. split.
  - intros [(s & <- & Hs) Hnone]. eauto.
  - intros (s & Hs & <- & Hnone). eauto.
Qed.

Lemma person_nights_from_spec stays (m : gmap string string) (acc : gmap string Z) :
  match unknown_members m stays with
  | name :: _ => person_nights_from stays m acc = Raise (KeyError name)
  | [] => exists family_nights, person_nights_from stays m acc = Ok family_nights
  end.
Proof.
  revert acc. induction stays as [|s rest IH]; intros acc; simpl.
  - eauto.
  - unfold unknown_members in *. simpl.
    destruct (m !! member_name s) as [family|] eqn:Hm.
    + rewrite bool_decide_eq_true_2 by (apply elem_of_dom; eauto). simpl. apply IH.
    + rewrite bool_decide_eq_false_2 by (rewrite elem_of_dom, Hm; intros [? ?]; discriminate).
      reflexivity.
Qed.

(** C10.  [calculate_person_nights] looks every stay's member up in the
    family map: it raises [KeyError] on the first stay whose member is
    absent, and returns a mapping when member validation finds no unknown
    member, that is when every stay's member is a key of the map. *)
Theorem calculate_person_nights_total_after_validation
    (stays : list stay) (member_to_family : gmap string string) :
  (unknown_members member_to_family stays = [] <->
   forall s, In s stays -> is_Some (member_to_family !! member_name s))
  /\ match unknown_members member_to_family stays with
     | name :: _ => calculate_person_nights stays member_to_family = Raise (KeyError name)
     | [] => exists family_nights,
               calculate_person_nights stays member_to_family = Ok family_nights
     end.
Proof.
  split; [|apply person_nights_from_spec]. split.
  - intros Hnone s Hs. destruct (member_to_family !! member_name s) eqn:Hm; [eauto|].
    assert (Hin : In (member_name s) (unknown_members member_to_family stays))
      by (apply unknown_members_spec; eauto).
    rewrite Hnone in Hin. contradiction.
  - intros Hall. destruct (unknown_members member_to_family stays) as [|name names] eqn:Hu;
      [reflexivity|].
    assert (Hin : In name (unknown_members member_to_family stays))
      by (rewrite Hu; now left).
    apply unknown_members_spec in Hin as (s & Hs & <- & Hnone).
    destruct (Hall s Hs) as [family Hfamily]. congruence.
Qed.

(* ===================================================================== *)
(** ** Facts about binary64 *)
(* ===================================================================== *)

Module B64Facts.
Import B64.

Lemma compare_cont_swap m1 m2 :
  Pos.compare_cont Eq m2 m1 = CompOpp (Pos.compare_cont Eq m1 m2).
Proof. now rewrite Pos.compare_cont_antisym. Qed.

Lemma compare_antisym x y :
  SFcompare y x = option_map CompOpp (SFcompare x y).
Proof.
  destruct x as [[]|[]| |[] m1 e1], y as [[]|[]| |[] m2 e2]; try reflexivity;
    cbn [SFcompare option_map]; rewrite (Z.compare_antisym e1 e2), (compare_cont_swap m1 m2);
    destruct (e1 ?= e2)%Z; cbn [CompOpp]; try reflexivity;
    destruct (Pos.compare_cont Eq m1 m2); reflexivity.
Qed.

Lemma compare_opp x y : SFcompare (SFopp x) (SFopp y) = SFcompare y x.
Proof.
  rewrite (compare_antisym x y).
  destruct x as [[]|[]| |[] m1 e1], y as [[]|[]| |[] m2 e2]; try reflexivity;
    cbn [SFcompare SFopp option_map negb];
    destruct (e1 ?= e2)%Z; cbn [CompOpp]; try reflexivity;
    destruct (Pos.compare_cont Eq m1 m2); reflexivity.
Qed.

Lemma ltb_opp x y : SFltb (SFopp x) (SFopp y) = SFltb y x.
Proof. unfold SFltb. now rewrite compare_opp. Qed.

Lemma opp_involutive x : SFopp (SFopp x) = x.
Proof. now destruct x as [[]|[]| |[] m e]. Qed.

(** [x < -y] is [y < -x]. *)
Lemma ltb_opp_r x y : SFltb x (SFopp y) = SFltb y (SFopp x).
Proof. now rewrite <- (opp_involutive x), ltb_opp, opp_involutive. Qed.

Lemma eqb_opp x y : SFeqb (SFopp x) (SFopp y) = SFeqb x y.
Proof.
  unfold SFeqb. rewrite compare_opp, (compare_antisym x y).
  destruct (SFcompare x y) as [[]|]; reflexivity.
Qed.

Lemma ltb_asym x y : SFltb x y = true -> SFltb y x = false.
Proof.
  unfold SFltb. rewrite (compare_antisym x y).
  destruct (SFcompare x y) as [[]|]; simpl; congruence.
Qed.

Lemma eqb_not_ltb x y : SFeqb x y = true -> SFltb y x = false.
Proof.
  unfold SFltb, SFeqb. rewrite (compare_antisym x y).
  destruct (SFcompare x y) as [[]|]; simpl; congruence.
Qed.

Lemma eqb_not_ltb_l x y : SFeqb x y = true -> SFltb x y = false.
Proof.
  unfold SFltb, SFeqb. destruct (SFcompare x y) as [[]|]; simpl; congruence.
Qed.

Lemma eqb_sym x y : SFeqb y x = SFeqb x y.
Proof.
  unfold SFeqb. rewrite (compare_antisym x y).
  now destruct (SFcompare x y) as [[]|].
Qed.

Lemma ltb_nan_r x : SFltb x S754_nan = false.
Proof. now destruct x as [[]|[]| |[] m e]. Qed.

Lemma ltb_nan_l x : SFltb S754_nan x = false.
Proof. reflexivity. Qed.

Lemma sub_nan_r x : sub x S754_nan = S754_nan.
Proof. now destruct x as [[]|[]| |[] m e]. Qed.

Lemma sub_nan_l x : sub S754_nan x = S754_nan.
Proof. reflexivity. Qed.

(** [x - x] is [+0.0] for a finite [x] and NaN otherwise. *)
Lemma sub_diag x :
  sub x x = if is_finite x then S754_zero false else S754_nan.
Proof.
  destruct x as [[]|[]| |s m e]; try reflexivity.
  unfold sub, SFsub. now rewrite Z.sub_diag.
Qed.

Lemma zero_lt_cent : SFltb (S754_zero false) cent = true.
Proof. reflexivity. Qed.

(** A debtor is not a creditor. *)
Lemma debtor_not_creditor x :
  SFltb x (SFopp cent) = true -> SFltb cent x = false.
Proof. now destruct x as [[]|[]| |[] m e]. Qed.

(** Nothing is below minus infinity or above plus infinity. *)
Lemma ltb_pinf_l x : SFltb (S754_infinity false) x = false.
Proof. now destruct x as [[]|[]| |[] m e]. Qed.

Lemma ltb_ninf_r x : SFltb x (S754_infinity true) = false.
Proof. now destruct x as [[]|[]| |[] m e]. Qed.

(** *** Rounding a non-negative mantissa never produces NaN *)

Lemma shr_1_nonneg mrs : 0 <= shr_m mrs -> 0 <= shr_m (shr_1 mrs).
Proof.
  destruct mrs as [m r s]. simpl.
  destruct m as [|[p|p|]|p]; simpl; lia.
Qed.

Lemma iter_shr_1_nonneg p mrs :
  0 <= shr_m mrs -> 0 <= shr_m (SpecFloat.iter_pos shr_1 p mrs).
Proof.
  revert mrs. induction p as [p IH|p IH|]; intros mrs Hm; simpl.
  - apply IH, IH, shr_1_nonneg, Hm.
  - apply IH, IH, Hm.
  - apply shr_1_nonneg, Hm.
Qed.

Lemma shr_fexp_nonneg m e l :
  0 <= m -> 0 <= shr_m (fst (shr_fexp prec emax m e l)).
Proof.
  intros Hm. unfold shr_fexp, shr.
  assert (H0 : 0 <= shr_m (shr_record_of_loc m l)) by (destruct l as [|[]]; exact Hm).
  destruct (fexp prec emax (Zdigits2 m + e) - e); simpl; auto using iter_shr_1_nonneg.
Qed.

Lemma round_nearest_even_nonneg m l : 0 <= m -> 0 <= round_nearest_even m l.
Proof.
  intros Hm. destruct l as [|[]]; simpl; try lia.
  destruct (Z.even m); lia.
Qed.

Lemma binary_round_aux_not_nan s m e l :
  0 <= m -> binary_round_aux prec emax s m e l <> S754_nan.
Proof.
  intros Hm. unfold binary_round_aux.
  pose proof (shr_fexp_nonneg m e l Hm) as H1.
  destruct (shr_fexp prec emax m e l) as [mrs' e']. simpl in H1.
  pose proof (shr_fexp_nonneg _ e' loc_Exact
                (round_nearest_even_nonneg _ (loc_of_shr_record mrs') H1)) as H2.
  destruct (shr_fexp prec emax (round_nearest_even (shr_m mrs') (loc_of_shr_record mrs')) e' loc_Exact)
    as [mrs'' e''].
  simpl in H2. destruct (shr_m mrs'') as [|p|p]; try discriminate.
  - destruct (e'' <=? emax - prec); discriminate.
  - lia.
Qed.

Lemma binary_normalize_not_nan m e sz :
  binary_normalize prec emax m e sz <> S754_nan.
Proof.
  destruct m as [|p|p]; simpl; try discriminate;
    unfold binary_round;
    destruct (shl_align p e (fexp prec emax (Z.pos (digits2_pos p) + e))) as [mz ez];
    apply binary_round_aux_not_nan; lia.
Qed.

(** The difference of two finite floats is not NaN. *)
Lemma sub_finite_not_nan x y :
  is_finite x = true -> is_finite y = true -> sub x y <> S754_nan.
Proof.
  destruct x as [[]|[]| |sx mx ex], y as [[]|[]| |sy my ey]; try discriminate; intros _ _;
    try (simpl; discriminate).
  unfold sub, SFsub. apply binary_normalize_not_nan.
Qed.

(** Subtracting a finite float from plus infinity leaves plus infinity. *)
Lemma sub_pinf_finite y :
  is_finite y = true -> sub (S754_infinity false) y = S754_infinity false.
Proof. now destruct y as [[]|[]| |sy my ey]. Qed.

End B64Facts.

(* ===================================================================== *)
(** ** The binary64 model against the machine's floats *)
(* ===================================================================== *)

(** The operations of [SpecFloat] are the specification of Rocq's primitive
    floats, which are the IEEE 754 binary64 numbers of the machine, as
    Python's are.  The values the counterexamples below turn on, computed
    by the machine and by the model. *)

Example cent_is_the_literal :
  Prim2SF 0x1.47ae147ae147bp-7%float = B64.cent /\ Py.float "0.01" = Some B64.cent.
Proof. split; vm_compute; reflexivity. Qed.

Example conservation_residue_on_the_machine :
  Prim2SF (1e14 - 11 * (1e14 / 11))%float
  = B64.sub (literal "1e14") (B64.mul (literal "11") (B64.div (literal "1e14") (literal "11")))
  /\ Prim2SF (1e14 - 11 * (1e14 / 11))%float = literal "-0.015625".
Proof. split; vm_compute; reflexivity. Qed.

Example infinity_minus_infinity_on_the_machine :
  Prim2SF (infinity - infinity)%float = B64.sub (S754_infinity false) (S754_infinity false)
  /\ (nan <? 0x1.47ae147ae147bp-7)%float = SFltb S754_nan B64.cent.
Proof. split; vm_compute; reflexivity. Qed.

(* ===================================================================== *)
(** ** Sorting *)
(* ===================================================================== *)

Section Sorting.
Context {A : Type}.

Lemma insert_sorted_perm (lt : A -> A -> bool) x l :
  Permutation (x :: l) (insert_sorted lt x l).
Proof.
  induction l as [|y l IH]; simpl.
  - reflexivity.
  - destruct (lt x y).
    + reflexivity.
    + rewrite perm_swap. now apply perm_skip.
Qed.

Lemma fold_insert_perm (lt : A -> A -> bool) l acc :
  Permutation (l ++ acc) (fold_left (fun acc x => insert_sorted lt x acc) l acc).
Proof.
  revert acc. induction l as [|x l IH]; intros acc; simpl.
  - reflexivity.
  - rewrite <- IH. rewrite <- insert_sorted_perm.
    now rewrite Permutation_middle.
Qed.

Lemma list_sort_perm (lt : A -> A -> bool) l : Permutation l (list_sort lt l).
Proof.
  unfold list_sort. rewrite <- fold_insert_perm. now rewrite app_nil_r.
Qed.

Lemma list_sort_length (lt : A -> A -> bool) l :
  List.length (list_sort lt l) = List.length l.
Proof. symmetry. apply Permutation_length, list_sort_perm. Qed.

Lemma insert_sorted_ext (lt1 lt2 : A -> A -> bool) x l :
  (forall a b, lt1 a b = lt2 a b) -> insert_sorted lt1 x l = insert_sorted lt2 x l.
Proof.
  intros E. induction l as [|y l IH]; simpl; [reflexivity|].
  now rewrite E, IH.
Qed.

Lemma list_sort_ext (lt1 lt2 : A -> A -> bool) l :
  (forall a b, lt1 a b = lt2 a b) -> list_sort lt1 l = list_sort lt2 l.
Proof.
  intros E. unfold list_sort. generalize (@nil A).
  induction l as [|x l IH]; intros acc; simpl; [reflexivity|].
  now rewrite (insert_sorted_ext lt1 lt2 x acc E), IH.
Qed.

(** With an asymmetric [lt], the result has no adjacent pair out of
    order. *)
Lemma insert_sorted_sorted (lt : A -> A -> bool) x l :
  (forall a b, lt a b = true -> lt b a = false) ->
  Sorted (fun a b => lt b a = false) l ->
  Sorted (fun a b => lt b a = false) (insert_sorted lt x l).
Proof.
  intros Hasym. induction 1 as [|y l Hs IH Hhd]; simpl.
  - repeat constructor.
  - destruct (lt x y) eqn:Hxy.
    + constructor; [constructor; assumption|]. constructor. now apply Hasym.
    + constructor; [assumption|].
      destruct Hhd as [|z l' Hz]; simpl.
      * now constructor.
      * destruct (lt x z); constructor; assumption.
Qed.

Lemma list_sort_sorted (lt : A -> A -> bool) l :
  (forall a b, lt a b = true -> lt b a = false) ->
  Sorted (fun a b => lt b a = false) (list_sort lt l).
Proof.
  intros Hasym. unfold list_sort.
  assert (Hnil : Sorted (fun a b => lt b a = false) (@nil A)) by constructor.
  revert Hnil. generalize (@nil A).
  induction l as [|x l IH]; intros acc Hacc; simpl; [assumption|].
  apply IH. now apply insert_sorted_sorted.
Qed.
End Sorting.

(* ===================================================================== *)
(** ** Structure of the settlement loop *)
(* ===================================================================== *)

Section LoopStructure.
Context {F : Type} `{FloatOps F}.

Lemma settle_loop_spec_rounds fuel (ds cs : list (string * F)) :
  settle_loop fuel ds cs = spec_rounds fuel ds cs.
Proof.
  revert ds cs. induction fuel as [|fuel IH]; intros [|[debtor debt] ds] [|[creditor credit] cs];
    try reflexivity.
  simpl. rewrite IH.
  match goal with |- match ?x with _ => _ end = _ => destruct x end; [|reflexivity].
  now destruct (f_lt f_cent (py_min debt credit)).
Qed.

Lemma partition_balances_length (balances : list (string * F)) :
  (List.length (partition_balances balances).1 + List.length (partition_balances balances).2
   = count_outside balances)%nat.
Proof.
  unfold count_outside, outside_tolerance.
  induction balances as [|[family balance] rest IH]; simpl; [reflexivity|].
  destruct (partition_balances rest) as [debtors creditors]. simpl in *.
  destruct (f_lt balance (f_neg f_cent)); simpl; [lia|].
  destruct (f_lt f_cent balance); simpl; lia.
Qed.

(** The names in the transfers are names of the lists the loop starts
    from. *)
Lemma settle_loop_names fuel (ds cs : list (string * F)) ts :
  settle_loop fuel ds cs = Some ts ->
  forall payer payee amount, In (payer, payee, amount) ts ->
    In payer (List.map fst ds) /\ In payee (List.map fst cs).
Proof.
  revert ds cs ts. induction fuel as [|fuel IH]; intros [|[debtor debt] ds] [|[creditor credit] cs] ts;
    simpl; try (intros [= <-]; contradiction); try discriminate.
  destruct (settle_loop fuel _ _) as [rest|] eqn:Hrest; [|discriminate].
  intros [= <-] payer payee amount Hin.
  assert (Hrec : In (payer, payee, amount) rest ->
                 In payer (debtor :: List.map fst ds) /\ In payee (creditor :: List.map fst cs)).
  { intros Hin'. destruct (IH _ _ _ Hrest _ _ _ Hin') as [Hp Hq]. split.
    - destruct (f_lt (f_sub debt (py_min debt credit)) f_cent); simpl in *; tauto.
    - destruct (f_lt (f_sub credit (py_min debt credit)) f_cent); simpl in *; tauto. }
  destruct (f_lt f_cent (py_min debt credit)); [|now apply Hrec].
  destruct Hin as [[= <- <- <-]|Hin]; [simpl; auto|now apply Hrec].
Qed.

(** Termination from an invariant under which every iteration removes an
    entry. *)
Section Progress.
Variable Good : list (string * F) -> list (string * F) -> Prop.
Hypothesis Good_step : forall ds cs e ds' cs',
  Good ds cs -> settle_step ds cs = Some (e, ds', cs') ->
  Good ds' cs' /\ (List.length ds' + List.length cs' < List.length ds + List.length cs)%nat.

Lemma settle_loop_terminates fuel ds cs :
  Good ds cs -> (List.length ds + List.length cs <= fuel)%nat ->
  exists ts, settle_loop fuel ds cs = Some ts.
Proof using Good_step.
  revert ds cs. induction fuel as [|fuel IH]; intros ds cs Hg Hlen.
  - destruct ds, cs; simpl in Hlen; try lia. now exists [].
  - destruct (settle_step ds cs) as [[[e ds'] cs']|] eqn:Hstep.
    + destruct (Good_step _ _ _ _ _ Hg Hstep) as [Hg' Hlt].
      destruct (IH ds' cs' Hg') as [rest Hrest]; [lia|].
      simpl. rewrite Hstep, Hrest. eauto.
    + simpl. rewrite Hstep. eauto.
Qed.
End Progress.
End LoopStructure.

(* ===================================================================== *)
(** ** The settlement loop in binary64 *)
(* ===================================================================== *)

Section Binary64Loop.
Import B64 B64Facts.
Implicit Types (d c : spec_float) (ds cs : list (string * spec_float)).

Lemma stuck_step d c :
  stuck d c ->
  SFltb (sub d (py_min d c)) cent = false /\
  SFltb (sub c (py_min d c)) cent = false /\
  stuck (sub d (py_min d c)) (sub c (py_min d c)).
Proof.
  unfold stuck, py_min. cbn [f_lt binary64]. intros [->|[-> ->]].
  - rewrite ltb_nan_r, !sub_nan_r. repeat split; auto.
  - repeat split; auto.
Qed.

Lemma stuck_loops fuel debtor d ds creditor c cs :
  stuck d c -> settle_loop fuel ((debtor, d) :: ds) ((creditor, c) :: cs) = None.
Proof.
  revert d c. induction fuel as [|fuel IH]; intros d c Hs; [reflexivity|].
  destruct (stuck_step d c Hs) as (Hd & Hc & Hs').
  cbn [settle_loop settle_step]. cbn [f_lt f_sub f_cent binary64].
  rewrite Hd, Hc. now rewrite (IH _ _ Hs').
Qed.

(** An iteration removes an entry or leaves stuck heads. *)
Lemma pops_or_stuck d c :
  SFltb (sub d (py_min d c)) cent = true \/
  SFltb (sub c (py_min d c)) cent = true \/
  stuck (sub d (py_min d c)) (sub c (py_min d c)).
Proof.
  unfold py_min, stuck. cbn [f_lt binary64].
  destruct (SFltb c d) eqn:Hlt.
  - right. rewrite (sub_diag c). destruct (is_finite c) eqn:Hc; [now left|right; right].
    destruct c as [[]|[]| |sc mc ec]; try discriminate;
      destruct d as [[]|[]| |sd md ed]; try discriminate; auto.
  - rewrite (sub_diag d). destruct (is_finite d); [now left|auto].
Qed.

Lemma settle_loop_bound fuel ds cs ts :
  settle_loop fuel ds cs = Some ts ->
  (List.length ts <= List.length ds + List.length cs - 1)%nat.
Proof.
  revert ds cs ts. induction fuel as [|fuel IH];
    intros [|[debtor d] ds] [|[creditor c] cs] ts;
    try (intros [= <-]; simpl; lia); try discriminate.
  cbn [settle_loop settle_step]. cbn [f_lt f_sub f_cent binary64].
  destruct (pops_or_stuck d c) as [Hd|[Hc|Hs]].
  - rewrite Hd.
    destruct (settle_loop fuel _ _) as [rest|] eqn:Hrest; [|discriminate].
    intros [= <-]. apply IH in Hrest.
    destruct (SFltb (sub c (py_min d c)) cent), (SFltb cent (py_min d c));
      simpl in *; lia.
  - rewrite Hc.
    destruct (settle_loop fuel _ _) as [rest|] eqn:Hrest; [|discriminate].
    intros [= <-]. apply IH in Hrest.
    destruct (SFltb (sub d (py_min d c)) cent), (SFltb cent (py_min d c));
      simpl in *; lia.
  - destruct (SFltb (sub d (py_min d c)) cent) eqn:Hd;
      [|destruct (SFltb (sub c (py_min d c)) cent) eqn:Hc].
    + destruct (settle_loop fuel _ _) as [rest|] eqn:Hrest; [|discriminate].
      intros [= <-]. apply IH in Hrest.
      destruct (SFltb (sub c (py_min d c)) cent), (SFltb cent (py_min d c));
        simpl in *; lia.
    + destruct (settle_loop fuel _ _) as [rest|] eqn:Hrest; [|discriminate].
      intros [= <-]. apply IH in Hrest.
      destruct (SFltb cent (py_min d c)); simpl in *; lia.
    + now rewrite (stuck_loops fuel _ _ _ _ _ _ Hs).
Qed.

(** *** Termination on finite balances *)

Lemma entry_finite_ok x : entry_finite x -> entry_ok x.
Proof.
  intros [Hf Hc]. split; [|assumption]. now destruct x as [n [[]|[]| |s m e]].
Qed.

Lemma Forall_finite_fresh l : Forall entry_finite l -> fresh_tail l.
Proof. destruct 1; simpl; auto using entry_finite_ok. Qed.

Lemma finite_not_nan x : is_finite x = true -> is_nan x = false.
Proof. now destruct x as [[]|[]| |s m e]. Qed.

(** A float that is not NaN, at least [0.01] and below a finite float is
    finite. *)
Lemma below_finite_is_finite c d :
  is_nan c = false -> SFltb c cent = false -> SFltb c d = true -> is_finite c = true.
Proof.
  destruct c as [[]|[]| |sc mc ec]; try discriminate; try reflexivity.
  intros _ _. now rewrite ltb_pinf_l.
Qed.

(** If [c] is finite and not below [d], which is at least [0.01] and not
    NaN, then [d] is finite. *)
Lemma not_above_finite_is_finite c d :
  is_finite c = true -> is_nan d = false -> SFltb d cent = false -> SFltb c d = false ->
  is_finite d = true.
Proof.
  destruct d as [[]|[]| |sd md ed]; try discriminate; try reflexivity.
  destruct c as [[]|[]| |sc mc ec]; discriminate.
Qed.

Lemma sub_ok_not_nan x y :
  is_nan x = false -> SFltb x cent = false -> is_finite y = true -> is_nan (sub x y) = false.
Proof.
  intros Hn Hc Hy. destruct (is_finite x) eqn:Hx.
  - pose proof (sub_finite_not_nan x y Hx Hy). now destruct (sub x y).
  - destruct x as [[]|[]| |sx mx ex]; try discriminate.
    now rewrite sub_pinf_finite.
Qed.

Lemma loop_inv_step ds cs e ds' cs' :
  loop_inv ds cs -> settle_step ds cs = Some (e, ds', cs') ->
  loop_inv ds' cs' /\ (List.length ds' + List.length cs' < List.length ds + List.length cs)%nat.
Proof.
  destruct ds as [|[debtor d] ds], cs as [|[creditor c] cs]; try discriminate.
  intros Hinv. cbn [settle_step]. cbn [f_lt f_sub f_cent binary64]. intros [= <- <- <-].
  assert (Hd : entry_ok (debtor, d) /\ Forall entry_finite ds).
  { destruct Hinv as [[Hf _]|[Hf _]]; [|exact Hf].
    inversion Hf; subst. auto using entry_finite_ok. }
  assert (Hc : entry_ok (creditor, c) /\ Forall entry_finite cs).
  { destruct Hinv as [[_ Hf]|[_ Hf]]; [exact Hf|].
    inversion Hf; subst. auto using entry_finite_ok. }
  assert (Hfin : is_finite d = true \/ is_finite c = true).
  { destruct Hinv as [[Hf _]|[_ Hf]]; inversion Hf as [|? ? [? ?]]; subst; auto. }
  destruct Hd as [[Hdn Hdc] Hds], Hc as [[Hcn Hcc] Hcs]. simpl in Hdn, Hdc, Hcn, Hcc.
  unfold py_min. cbn [f_lt binary64].
  destruct (SFltb c d) eqn:Hlt.
  - (* the creditor is settled *)
    assert (Hcf : is_finite c = true) by eauto using below_finite_is_finite.
    rewrite (sub_diag c), Hcf, zero_lt_cent.
    destruct (SFltb (sub d c) cent) eqn:Hpop; simpl.
    + split; [|lia]. left. auto using Forall_finite_fresh.
    + split; [|lia]. right. split; [|assumption]. simpl. split; [|assumption].
      split; [|exact Hpop]. now apply sub_ok_not_nan.
  - (* the debtor is settled *)
    assert (Hdf : is_finite d = true).
    { destruct Hfin as [?|Hcf]; [assumption|]. eauto using not_above_finite_is_finite. }
    rewrite (sub_diag d), Hdf, zero_lt_cent.
    destruct (SFltb (sub c d) cent) eqn:Hpop; simpl.
    + split; [|lia]. left. auto using Forall_finite_fresh.
    + split; [|lia]. left. split; [assumption|]. simpl. split; [|assumption].
      split; [|exact Hpop]. now apply sub_ok_not_nan.
Qed.

Lemma settle_loop_finite fuel ds cs :
  Forall entry_finite ds -> Forall entry_finite cs ->
  (List.length ds + List.length cs <= fuel)%nat ->
  exists ts, settle_loop fuel ds cs = Some ts.
Proof.
  intros Hd Hc. apply (settle_loop_terminates loop_inv loop_inv_step).
  left. auto using Forall_finite_fresh.
Qed.

(** The two lists built from finite balances hold finite entries. *)
Lemma partition_balances_finite (balances : list (string * spec_float)) :
  Forall (fun x => is_finite x.2 = true) balances ->
  Forall entry_finite (partition_balances balances).1 /\
  Forall entry_finite (partition_balances balances).2.
Proof.
  induction 1 as [|[family balance] rest Hb _ [IHd IHc]];
    cbn [partition_balances f_lt f_neg f_cent binary64 fst snd]; [auto|].
  destruct (partition_balances rest) as [debtors creditors]. cbn [fst snd] in *.
  destruct (SFltb balance (SFopp cent)) eqn:Hdeb; cbn [fst snd].
  - split; [|assumption]. constructor; [|assumption]. split; cbn [snd].
    + now destruct balance as [[]|[]| |s m e].
    + rewrite ltb_opp_r in Hdeb. now apply ltb_asym.
  - destruct (SFltb cent balance) eqn:Hcred; cbn [fst snd]; [|auto].
    split; [assumption|]. constructor; [|assumption]. split; cbn [snd]; [assumption|].
    now apply ltb_asym.
Qed.

Lemma calculate_settlements_finite (balances : list (string * spec_float)) fuel :
  Forall (fun x => is_finite x.2 = true) balances ->
  (count_outside balances <= fuel)%nat ->
  exists ts, calculate_settlements fuel balances = Some ts.
Proof.
  intros Hfin Hfuel. unfold calculate_settlements.
  pose proof (partition_balances_finite balances Hfin) as [Hd Hc].
  pose proof (partition_balances_length balances) as Hlen.
  destruct (partition_balances balances) as [debtors creditors]. simpl in *.
  apply settle_loop_finite.
  - eapply Permutation_Forall; [apply list_sort_perm|assumption].
  - eapply Permutation_Forall; [apply list_sort_perm|assumption].
  - rewrite !list_sort_length. lia.
Qed.
End Binary64Loop.

(* ===================================================================== *)
(** ** The settlement engine against its specification (binary64) *)
(* ===================================================================== *)

Section Binary64Settlement.
Import B64 B64Facts.

Lemma partition_balances_spec (balances : list (string * spec_float)) :
  partition_balances balances = (spec_debtors balances, spec_creditors balances).
Proof.
  unfold spec_debtors, spec_creditors.
  induction balances as [|[family balance] rest IH];
    cbn [partition_balances List.filter List.map fst snd]; [reflexivity|].
  rewrite IH. cbn [f_lt f_neg f_cent binary64].
  destruct (SFltb balance (SFopp cent)) eqn:Hdeb.
  - now rewrite (debtor_not_creditor _ Hdeb).
  - now destruct (SFltb cent balance).
Qed.

Lemma entry_lt_spec_before (x y : string * spec_float) :
  entry_lt x y = spec_before x y.
Proof.
  unfold entry_lt, spec_before, key_lt, sort_key. cbn [fst snd f_lt f_eq f_neg binary64].
  rewrite eqb_opp, ltb_opp.
  destruct (SFeqb x.2 y.2) eqn:Heq.
  - now rewrite (eqb_not_ltb _ _ Heq).
  - now rewrite orb_false_r.
Qed.

Lemma spec_before_asym (x y : string * spec_float) :
  spec_before x y = true -> spec_before y x = false.
Proof.
  unfold spec_before. cbn [f_lt f_eq binary64].
  rewrite (eqb_sym x.2 y.2).
  destruct (SFltb y.2 x.2) eqn:Hlt; simpl.
  - intros _. rewrite (ltb_asym _ _ Hlt). simpl.
    destruct (SFeqb x.2 y.2) eqn:Heq; [|reflexivity].
    apply eqb_not_ltb in Heq. congruence.
  - intros [Heq Hname]%andb_prop. rewrite Heq, (eqb_not_ltb_l _ _ Heq). simpl.
    unfold String.ltb in *. rewrite String.compare_antisym.
    now destruct (String.compare x.1 y.1).
Qed.

Lemma settle_loop_amounts fuel (ds cs : list (string * spec_float)) ts :
  settle_loop fuel ds cs = Some ts -> Forall (fun t => SFltb cent t.2 = true) ts.
Proof.
  revert ds cs ts. induction fuel as [|fuel IH];
    intros [|[debtor d] ds] [|[creditor c] cs] ts;
    try (intros [= <-]; constructor); try discriminate.
  cbn [settle_loop settle_step]. cbn [f_lt f_cent binary64].
  destruct (settle_loop fuel _ _) as [rest|] eqn:Hrest; [|discriminate].
  intros [= <-]. apply IH in Hrest.
  destruct (SFltb cent (py_min d c)) eqn:Hemit; [constructor|]; assumption.
Qed.

(** C4.  [calculate_settlements] is the greedy procedure of the
    specification: the same partition into debtors and creditors (families
    within the tolerance in neither list), each list a permutation of its
    part sorted once in the stated order (descending amount, ascending name
    on ties), and the same rounds on the heads.  Every transfer goes from a
    debtor to a creditor of the partition and exceeds [0.01]. *)
Theorem calculate_settlements_follows_spec (fuel : nat) (balances : list (string * spec_float)) :
  calculate_settlements fuel balances = spec_settlements fuel balances
  /\ Permutation (spec_debtors balances) (list_sort entry_lt (spec_debtors balances))
  /\ Permutation (spec_creditors balances) (list_sort entry_lt (spec_creditors balances))
  /\ Sorted (fun x y => spec_before y x = false) (list_sort entry_lt (spec_debtors balances))
  /\ Sorted (fun x y => spec_before y x = false) (list_sort entry_lt (spec_creditors balances))
  /\ Forall (fun t => In t.1.1 (List.map fst (spec_debtors balances))
                      /\ In t.1.2 (List.map fst (spec_creditors balances))
                      /\ SFltb cent t.2 = true)
            (default [] (calculate_settlements fuel balances)).
Proof.
  assert (Hsort : forall l : list (string * spec_float),
             list_sort entry_lt l = list_sort spec_before l)
    by (intros l; apply list_sort_ext, entry_lt_spec_before).
  unfold calculate_settlements, spec_settlements.
  rewrite partition_balances_spec, settle_loop_spec_rounds, !Hsort.
  repeat split; try apply list_sort_perm; try (apply list_sort_sorted, spec_before_asym).
  rewrite <- settle_loop_spec_rounds.
  destruct (settle_loop fuel _ _) as [ts|] eqn:Hts; [|constructor].
  pose proof (settle_loop_names _ _ _ _ Hts) as Hnames.
  pose proof (settle_loop_amounts _ _ _ _ Hts) as Hamounts.
  simpl. rewrite List.Forall_forall in *. intros [[payer payee] amount] Hin.
  destruct (Hnames _ _ _ Hin) as [Hp Hq]. simpl. repeat split.
  - eapply Permutation_in; [|exact Hp]. symmetry. apply Permutation_map, list_sort_perm.
  - eapply Permutation_in; [|exact Hq]. symmetry. apply Permutation_map, list_sort_perm.
  - now apply (Hamounts _ Hin).
Qed.

(** C5 (counterexample).  The all-balanced case: no family outside the
    tolerance, no transfer, and [0 <= 0 - 1] fails. *)
Lemma transfer_bound_fails_when_all_balanced :
  calculate_settlements 0 [("Adams"%string, S754_zero false); ("Oiler"%string, S754_zero false)]
    = Some []
  /\ ~ transfer_bound_as_stated
         [("Adams"%string, S754_zero false); ("Oiler"%string, S754_zero false)].
Proof.
  split; [reflexivity|].
  intros Hbound. specialize (Hbound 0%nat [] eq_refl). vm_compute in Hbound.
  now apply Hbound.
Qed.

(** C5 (amended).  Whenever [calculate_settlements] returns, the number of
    transfers is at most [max 0 (n - 1)] for [n] the number of families
    outside the tolerance; on finite balances it does return. *)
Theorem transfer_count_bound (balances : list (string * spec_float)) (fuel : nat)
    (ts : list (string * string * spec_float)) :
  calculate_settlements fuel balances = Some ts ->
  Z.of_nat (List.length ts) <= Z.max 0 (Z.of_nat (count_outside balances) - 1).
Proof.
  unfold calculate_settlements.
  pose proof (partition_balances_length balances) as Hlen.
  destruct (partition_balances balances) as [debtors creditors]. simpl in Hlen.
  intros Hts%settle_loop_bound. rewrite !list_sort_length in Hts. lia.
Qed.

(** C5 (witness): the scenario of the specification, one transfer for two
    families. *)
Lemma transfer_count_bound_witness :
  exists ts,
    calculate_settlements 5 [("Adams"%string, round_int 25); ("Oiler"%string, round_int (-25))]
      = Some ts
    /\ Z.of_nat (List.length ts) <= 1.
Proof.
  eexists. split; [vm_compute; reflexivity|].
  apply (transfer_count_bound
           [("Adams"%string, round_int 25); ("Oiler"%string, round_int (-25))] 5).
  vm_compute; reflexivity.
Defined.

(** C8 (failing input).  With a balance of minus infinity and one of plus
    infinity the first round leaves NaN on both heads, which are never
    removed: the loop has not exited after any number of iterations.  The
    same state is reached from the text areas. *)
Theorem calculate_settlements_loops_on_infinite_balances :
  forall fuel,
    calculate_settlements fuel
      [("A"%string, S754_infinity true); ("B"%string, S754_infinity false)] = None.
Proof.
  intros [|fuel]; [reflexivity|].
  change (calculate_settlements (S fuel)
            [("A"%string, S754_infinity true); ("B"%string, S754_infinity false)])
    with (match settle_loop fuel [("A"%string, S754_nan)] [("B"%string, S754_nan)] with
          | Some rest => Some (("A"%string, "B"%string, S754_infinity false) :: rest)
          | None => None
          end).
  rewrite stuck_loops; [reflexivity|]. now left.
Qed.
End Binary64Settlement.

(* ===================================================================== *)
(** ** The settlement engine in exact arithmetic *)
(* ===================================================================== *)


Section ExactSettlement.
Local Open Scope Q_scope.
Implicit Types (ds cs balances : list (string * Q)) (ts : list (string * string * Q)).


















End ExactSettlement.

(* ===================================================================== *)
(** ** Settlement correctness as the specification states it *)
(* ===================================================================== *)


(* ===================================================================== *)
(** ** Conservation of the balances *)
(* ===================================================================== *)

Section ExactBalances.
Local Open Scope Q_scope.


Lemma sum_over_ext families g g' :
  (forall f, In f families -> g' f == g f) -> sum_over families g' == sum_over families g.
Proof.
  unfold sum_over. induction families as [|k l IH]; intros E;
    cbn [List.map qsum fold_right]; [reflexivity|]. fold (qsum (List.map g' l)) (qsum (List.map g l)).
  rewrite (E k), IH; [reflexivity| |now left]. intros f Hf. apply E. now right.
Qed.

Lemma sum_over_zero families : sum_over families (fun _ => 0) == 0.
Proof.
  unfold sum_over. induction families as [|f l IH]; cbn [List.map qsum fold_right]; [reflexivity|].
  fold (qsum (List.map (fun _ : string => 0) l)). rewrite IH. lra.
Qed.

(** Raising the value at one family of a duplicate-free list raises the
    sum by as much. *)
Lemma sum_over_update families k g g' a :
  NoDup families -> In k families ->
  (forall f, f <> k -> g' f == g f) -> g' k == g k + a ->
  sum_over families g' == sum_over families g + a.
Proof.
  unfold sum_over. intros Hnd Hin Hother Hk.
  induction families as [|f l IH]; [contradiction|].
  inversion Hnd as [|? ? Hnotin Hnd']; subst. rewrite list_elem_of_In in Hnotin.
  cbn [List.map qsum fold_right]. fold (qsum (List.map g' l)) (qsum (List.map g l)).
  destruct Hin as [->|Hin].
  - rewrite Hk. pose proof (sum_over_ext l g g') as E. unfold sum_over in E. rewrite E; [lra|].
    intros f Hf. apply Hother. intros ->. contradiction.
  - rewrite (IH Hnd' Hin), Hother; [lra|]. intros ->. contradiction.
Qed.





Lemma sum_values_insert (family_nights : gmap string Z) k v :
  family_nights !! k = None ->
  sum_values (<[k:=v]> family_nights) = (sum_values family_nights + v)%Z.
Proof.
  intros Hk. unfold sum_values. rewrite map_fold_insert_L; [reflexivity| |assumption].
  intros. lia.
Qed.

Lemma nights_sum (family_nights : gmap string Z) families :
  NoDup families -> (forall k, k ∈ dom family_nights -> In k families) ->
  sum_over families (nights_of family_nights) == inject_Z (sum_values family_nights).
Proof.
  intros Hnd. induction family_nights as [|k v m Hk IH] using map_ind; intros Hdom.
  - unfold sum_values. rewrite map_fold_empty.
    rewrite (sum_over_ext families (fun _ => 0)); [apply sum_over_zero|].
    intros f _. unfold nights_of. now rewrite lookup_empty.
  - rewrite sum_values_insert by assumption. rewrite inject_Z_plus, <- IH.
    + apply sum_over_update with (k := k); [assumption| | |].
      * apply Hdom. set_solver.
      * intros f Hf. unfold nights_of. now rewrite lookup_insert_ne.
      * unfold nights_of. rewrite lookup_insert_eq, Hk. cbn [default from_option].
        unfold id. change (inject_Z 0) with 0. lra.
    + intros f Hf. apply Hdom. set_solver.
Qed.




End ExactBalances.

(* ===================================================================== *)
(** ** Conservation as the specification states it (binary64) *)
(* ===================================================================== *)


(* ===================================================================== *)
(** ** Validation and failure of the calculation cycle *)
(* ===================================================================== *)

Lemma filter_sublist {A} (p : A -> bool) (l : list A) : sublist (List.filter p l) l.
Proof.
  induction l as [|a l IH]; simpl; [constructor|].
  destruct (p a); now constructor.
Qed.

Section CycleFacts.
Context {F : Type} `{FloatOps F}.

Lemma unknown_families_spec (member_to_family : gmap string string)
    (expenses : list (expense F)) family :
  In family (unknown_families member_to_family expenses) <->
  exists e, In e expenses /\ paid_by_family e = family
            /\ family ∉ (map_img member_to_family : gset string).
Proof.
  unfold unknown_families. rewrite List.filter_In, List.in_map_iff, negb_true_iff.
  rewrite bool_decide_eq_false. split.
  - intros [(e & <- & He) Hnot]. eauto.
  - intros (e & He & <- & Hnot). eauto.
Qed.


(** C7 (amended).  The unknown-member error carries the offending member
    names in the order of their stay records (every carried name offends,
    every offending name is carried); the unknown-family error carries the
    set of offending family names. *)
Theorem validation_errors_carry_offending_names (fuel : nat)
    (member_to_family : gmap string string) (stays : list stay)
    (expenses : list (expense F)) (o : outcome F) :
  calculate_cycle fuel member_to_family stays expenses = Some o ->
  match o with
  | UnknownMembers names =>
      sublist names (List.map member_name stays) /\
      forall name, In name names <->
        exists s, In s stays /\ member_name s = name /\ member_to_family !! name = None
  | UnknownFamilies names =>
      unknown_members member_to_family stays = [] /\
      forall family, family ∈ names <->
        exists e, In e expenses /\ paid_by_family e = family
                  /\ family ∉ (map_img member_to_family : gset string)
  | _ => True
  end.
Proof.
  unfold calculate_cycle.
  destruct (unknown_members member_to_family stays) as [|name names] eqn:Hu.
  - destruct (unknown_families member_to_family expenses) as [|family families] eqn:Hf.
    + destruct (compute_balances member_to_family stays expenses)
        as [[[[[[[? ?] ?] ?] ?] ?] balances]|e]; [|now intros [= <-]].
      destruct (calculate_settlements fuel balances); [now intros [= <-]|discriminate].
    + intros [= <-]. split; [reflexivity|]. intros family'.
      change ({[family]} ∪ list_to_set families : gset string)
        with (list_to_set (family :: families) : gset string).
      rewrite elem_of_list_to_set, list_elem_of_In, <- Hf. apply unknown_families_spec.
  - intros [= <-]. rewrite <- Hu. split.
    + apply filter_sublist.
    + apply unknown_members_spec.
Qed.
End CycleFacts.

(** C7 (counterexample).  Three stays of unknown members: the error lists
    them as entered, unsorted and with the repetition. *)
Lemma member_names_not_sorted_nor_collapsed :
  exists o,
    calculate_clicked 0 "Adams:John"
      ("Zed,1" ++ newline_string ++ "Abe,2" ++ newline_string ++ "Zed,3") "Adams,rent,100" None
    = Some (Some o, None)
    /\ o = UnknownMembers ["Zed"; "Abe"; "Zed"]%string
    /\ ~ member_names_as_stated o.
Proof.
  eexists. split; [vm_compute; reflexivity|]. split; [reflexivity|].
  intros [Hsorted _]. inversion Hsorted as [|? ? _ Hhd]; subst.
  inversion Hhd as [|? ? Hle]; subst. vm_compute in Hle. discriminate Hle.
Qed.

(** C7 (witness): the stays of the counterexample. *)
Lemma validation_errors_carry_offending_names_witness :
  sublist ["Zed"; "Abe"; "Zed"]%string
          (List.map member_name (parse_stays
             ("Zed,1" ++ newline_string ++ "Abe,2" ++ newline_string ++ "Zed,3")))
  /\ forall name, In name ["Zed"; "Abe"; "Zed"]%string <->
       exists s, In s (parse_stays
                         ("Zed,1" ++ newline_string ++ "Abe,2" ++ newline_string ++ "Zed,3"))
                 /\ member_name s = name /\ parse_families "Adams:John" !! name = None.
Proof.
  apply (validation_errors_carry_offending_names (F := spec_float) 0
           (parse_families "Adams:John")
           (parse_stays ("Zed,1" ++ newline_string ++ "Abe,2" ++ newline_string ++ "Zed,3"))
           (parse_expenses "Adams,rent,100")
           (UnknownMembers ["Zed"; "Abe"; "Zed"]%string)).
  vm_compute; reflexivity.
Defined.


(** *** Zero person-nights *)

(** C3 (counterexample).  One stay of zero nights and one expense: the
    division raises [ZeroDivisionError], and the generic handler reports it
    like any other exception. *)
Lemma zero_nights_reported_by_generic_handler :
  exists o,
    calculate_clicked 0 "A:a" "a,0" "A,rent,100" None = Some (Some o, None)
    /\ o = ProcessingError ZeroDivisionError
    /\ reported_as o = Some GenericError
    /\ ~ zero_nights_as_stated o.
Proof.
  eexists. split; [vm_compute; reflexivity|]. repeat split. discriminate.
Qed.

(** C3 (amended).  On validated input whose total of person-nights is 0,
    the division [total_expenses / total_nights] raises Python's
    [ZeroDivisionError]; the generic handler reports it, no balance or
    settlement is produced and the stored results are deleted. *)
Theorem zero_nights_raise_in_the_division (fuel : nat)
    (member_to_family : gmap string string) (stays : list stay)
    (expenses : list (expense spec_float)) (family_nights : gmap string Z) :
  unknown_members member_to_family stays = [] ->
  unknown_families member_to_family expenses = [] ->
  calculate_person_nights stays member_to_family = Ok family_nights ->
  sum_values family_nights = 0 ->
  true_divide (sum_amounts expenses) (sum_values family_nights) = Raise ZeroDivisionError
  /\ compute_balances member_to_family stays expenses = Raise ZeroDivisionError
  /\ calculate_cycle fuel member_to_family stays expenses
     = Some (ProcessingError ZeroDivisionError)
  /\ reported_as (F := spec_float) (ProcessingError ZeroDivisionError) = Some GenericError
  /\ session_after (F := spec_float) (ProcessingError ZeroDivisionError) = None.
Proof.
  intros Hm Hf Hpn Hzero.
  assert (Hdiv : true_divide (sum_amounts expenses) (sum_values family_nights)
                 = Raise ZeroDivisionError).
  { rewrite Hzero. now destruct (sum_amounts expenses). }
  assert (Hb : compute_balances member_to_family stays expenses = Raise ZeroDivisionError).
  { unfold compute_balances. rewrite Hpn. cbn [bind]. now rewrite Hdiv. }
  repeat split; try assumption.
  unfold calculate_cycle. now rewrite Hm, Hf, Hb.
Qed.

(** C3 (witness): the input of the counterexample. *)
Lemma zero_nights_raise_in_the_division_witness :
  calculate_cycle 0 (parse_families "A:a") (parse_stays "a,0") (parse_expenses "A,rent,100")
  = Some (ProcessingError ZeroDivisionError).
Proof.
  eapply (zero_nights_raise_in_the_division 0 (parse_families "A:a") (parse_stays "a,0")
            (parse_expenses "A,rent,100")); vm_compute; reflexivity.
Defined.

(** The state of C8 is reached from the text areas: an infinite amount
    and a negative number of nights give balances of minus and plus
    infinity, and the block never finishes. *)
Lemma calculate_clicked_hangs_on_infinite_amount (fuel : nat)
    (session : option (results spec_float)) :
  calculate_clicked fuel ("A:a" ++ newline_string ++ "B:b")
                    ("a,-1" ++ newline_string ++ "b,3") "A,rent,inf" session = None.
Proof.
  unfold calculate_clicked.
  change (String.eqb _ "" || String.eqb _ "" || String.eqb _ "")%bool with false.
  cbv iota. unfold calculate_cycle.
  assert (Hm : unknown_members (parse_families ("A:a" ++ newline_string ++ "B:b"))
                 (parse_stays ("a,-1" ++ newline_string ++ "b,3")) = [])
    by (vm_compute; reflexivity).
  assert (Hf : unknown_families (parse_families ("A:a" ++ newline_string ++ "B:b"))
                 (parse_expenses "A,rent,inf") = [])
    by (vm_compute; reflexivity).
  eassert (Hb : compute_balances (parse_families ("A:a" ++ newline_string ++ "B:b"))
                  (parse_stays ("a,-1" ++ newline_string ++ "b,3"))
                  (parse_expenses "A,rent,inf")
                = Ok (_, _, _, _, _, _,
                      [("A"%string, S754_infinity false); ("B"%string, S754_infinity true)]))
    by (vm_compute; reflexivity).
  rewrite Hm, Hf, Hb.
  replace (calculate_settlements fuel
             [("A"%string, S754_infinity false); ("B"%string, S754_infinity true)])
    with (@None (list (string * string * spec_float))); [reflexivity|].
  destruct fuel as [|fuel]; [reflexivity|]. symmetry.
  change (calculate_settlements (S fuel)
            [("A"%string, S754_infinity false); ("B"%string, S754_infinity true)])
    with (match settle_loop fuel [("B"%string, S754_nan)] [("A"%string, S754_nan)] with
          | Some rest => Some (("B"%string, "A"%string, S754_infinity false) :: rest)
          | None => None
          end).
  rewrite stuck_loops; [reflexivity|]. now left.
Qed.

(* ===================================================================== *)
(** ** Signs of the parsed numbers *)
(* ===================================================================== *)

Module ParserFacts.
Import Py.

Lemma no_minus_cons c s : no_minus (String c s) <-> Ascii.eqb c "-" = false /\ no_minus s.
Proof. unfold no_minus. simpl. apply orb_false_iff. Qed.

Lemma no_minus_lstrip s : no_minus s -> no_minus (lstrip s).
Proof.
  induction s as [|c s IH]; simpl; [auto|].
  intros Hs. destruct (is_space c); [|assumption].
  apply IH. now apply no_minus_cons in Hs.
Qed.

Lemma no_minus_rstrip s : no_minus s -> no_minus (rstrip s).
Proof.
  induction s as [|c s IH]; simpl; [auto|].
  intros [Hc Hs]%no_minus_cons. specialize (IH Hs).
  destruct (rstrip s) as [|c' r].
  - destruct (is_space c); [reflexivity|]. now apply no_minus_cons.
  - now apply no_minus_cons.
Qed.

Lemma no_minus_strip s : no_minus s -> no_minus (strip s).
Proof. intros Hs. now apply no_minus_rstrip, no_minus_lstrip. Qed.

Lemma no_minus_split sep s : no_minus s -> Forall no_minus (split sep s).
Proof.
  induction s as [|c s IH]; simpl.
  - intros _. now repeat constructor.
  - intros [Hc Hs]%no_minus_cons. specialize (IH Hs).
    destruct (Ascii.eqb c sep).
    + constructor; [reflexivity|assumption].
    + destruct (split sep s) as [|piece pieces].
      * repeat constructor. now apply no_minus_cons.
      * inversion IH; subst. constructor; [|assumption]. now apply no_minus_cons.
Qed.

Lemma no_minus_lines text : no_minus text -> Forall no_minus (stripped_lines text).
Proof.
  intros Ht. unfold stripped_lines.
  pose proof (no_minus_split newline _ (no_minus_strip _ Ht)) as Hl.
  induction Hl; simpl; constructor; auto using no_minus_strip.
Qed.

(** Without a minus sign the optional sign is read as positive. *)
Lemma sign_no_minus s : no_minus s -> (sign s).1 = false /\ no_minus (sign s).2.
Proof.
  destruct s as [|c s]; [now split|].
  intros Hs. pose proof Hs as [Hc Hs']%no_minus_cons.
  destruct c as [[] [] [] [] [] [] [] []]; try (split; [reflexivity|assumption]);
    discriminate Hc.
Qed.

Lemma digit_value_nonneg c d : digit_value c = Some d -> 0 <= d.
Proof.
  unfold digit_value. destruct (_ && _)%bool eqn:Hrange; [|discriminate].
  intros [= <-]. apply andb_prop in Hrange as [Hlo _]. apply N.leb_le in Hlo. lia.
Qed.

Lemma digitpart_nonneg s acc count after n k rest :
  0 <= acc -> digitpart s acc count after = Some (n, k, rest) -> 0 <= n.
Proof.
  revert acc count after. induction s as [|c s IH]; intros acc count after Hacc; simpl.
  - destruct after; [|discriminate]. now intros [= <- _ _].
  - destruct (digit_value c) as [d|] eqn:Hd.
    + apply IH. apply digit_value_nonneg in Hd. lia.
    + destruct (Ascii.eqb c "_").
      * destruct after; [|discriminate]. destruct s as [|c' s']; [discriminate|].
        destruct (digit_value c'); [|discriminate]. now apply IH.
      * destruct after; [|discriminate]. now intros [= <- _ _].
Qed.

(** [int] of a text without minus sign is not negative. *)
Lemma int_nonneg s n : no_minus s -> int s = Some n -> 0 <= n.
Proof.
  intros Hs. unfold int.
  destruct (sign_no_minus _ (no_minus_strip _ Hs)) as [Hneg _].
  destruct (sign (strip s)) as [neg body]. simpl in Hneg. subst neg.
  destruct (digitpart body 0 0 false) as [[[m k] rest]|] eqn:Hd; [|discriminate].
  destruct rest; [|discriminate]. intros [= <-].
  eapply digitpart_nonneg; [|exact Hd]. lia.
Qed.

Lemma binary_round_aux_positive m e l :
  nonnegative_or_nan (binary_round_aux B64.prec B64.emax false m e l).
Proof.
  unfold binary_round_aux.
  destruct (shr_fexp B64.prec B64.emax m e l) as [mrs' e'].
  destruct (shr_fexp B64.prec B64.emax _ e' loc_Exact) as [mrs'' e''].
  destruct (shr_m mrs'') as [|p|p]; [now right| |now left].
  destruct (e'' <=? B64.emax - B64.prec); now right.
Qed.

Lemma decimal_to_float_positive m e : nonnegative_or_nan (decimal_to_float false m e).
Proof.
  unfold decimal_to_float. destruct (0 <=? e) eqn:He.
  - apply Z.leb_le in He.
    assert (Hpos : 0 < Z.pos m * 10 ^ e) by (apply Z.mul_pos_pos; [lia|apply Z.pow_pos_nonneg; lia]).
    destruct (Z.pos m * 10 ^ e) as [|p|p]; try lia.
    unfold binary_normalize, binary_round.
    destruct (shl_align p 0 _) as [mz ez]. apply binary_round_aux_positive.
  - unfold B64.div, SFdiv.
    destruct (SFdiv_core_binary B64.prec B64.emax (Z.pos m) 0 _ 0) as [[mz ez] lz].
    apply binary_round_aux_positive.
Qed.

(** [float] of a text without minus sign is not negative. *)
Lemma float_nonneg s x : no_minus s -> float s = Some x -> nonnegative_or_nan x.
Proof.
  intros Hs. unfold float.
  destruct (sign_no_minus _ (no_minus_strip _ Hs)) as [Hneg _].
  destruct (sign (strip s)) as [neg body]. simpl in Hneg. subst neg.
  destruct (_ || _)%bool; [intros [= <-]; now right|].
  destruct (String.eqb _ "nan"); [intros [= <-]; now left|].
  destruct (number body) as [[[n k] rest]|]; [|discriminate].
  destruct (exponent rest) as [[e rest']|]; [|discriminate].
  destruct rest'; [|discriminate]. intros [= <-].
  destruct n as [|m|m]; [now right| |now right]. apply decimal_to_float_positive.
Qed.

Lemma Forall_omap {A B} (P : A -> Prop) (Q : B -> Prop) (f : A -> option B) l :
  Forall P l -> (forall a b, P a -> f a = Some b -> Q b) -> Forall Q (omap f l).
Proof.
  intros Hl Hf. induction Hl as [|a l Ha _ IH]; simpl; [constructor|].
  destruct (f a) as [b|] eqn:Hfa; [|assumption]. constructor; eauto.
Qed.

Lemma field_no_minus line member field more :
  no_minus line -> split "," line = member :: field :: more -> no_minus (strip field).
Proof.
  intros Hl Hsplit. pose proof (no_minus_split "," line Hl) as Hf. rewrite Hsplit in Hf.
  inversion Hf as [|? ? _ Hf']; subst. inversion Hf'; subst. now apply no_minus_strip.
Qed.

Lemma parse_stays_line_nonneg line s :
  no_minus line -> parse_stays_line line = Some s -> 0 <= nights s.
Proof.
  intros Hl. unfold parse_stays_line. destruct (_ || _)%bool; [discriminate|].
  destruct (split "," line) as [|member [|field more]] eqn:Hsplit; try discriminate.
  destruct (int (strip field)) as [n|] eqn:Hint; [|discriminate]. intros [= <-]. simpl.
  eapply int_nonneg; [|exact Hint]. eapply field_no_minus; eauto.
Qed.

Lemma parse_expenses_line_nonneg line e :
  no_minus line -> parse_expenses_line line = Some e -> nonnegative_or_nan (amount e).
Proof.
  intros Hl. unfold parse_expenses_line. destruct (_ || _)%bool; [discriminate|].
  destruct (split "," line) as [|family [|category [|field more]]] eqn:Hsplit; try discriminate.
  destruct (float (strip field)) as [x|] eqn:Hx; [|discriminate]. intros [= <-]. simpl.
  eapply float_nonneg; [|exact Hx].
  pose proof (no_minus_split "," line Hl) as Hf. rewrite Hsplit in Hf.
  inversion Hf as [|? ? _ Hf']; subst. inversion Hf' as [|? ? _ Hf'']; subst.
  inversion Hf''; subst. now apply no_minus_strip.
Qed.
End ParserFacts.

(** C9 (counterexample).  A stay of -5 nights and an expense of -50 are
    parsed as written. *)
Lemma negative_numbers_are_parsed :
  parse_stays "John,-5" = [ {| member_name := "John"; nights := -5 |} ]
  /\ parse_expenses "Adams,refund,-50"
     = [ {| paid_by_family := "Adams"; expense_type := "refund";
            amount := literal "-50"; description := "" |} ]
  /\ ~ parsed_numbers_as_stated "John,-5" "Adams,refund,-50".
Proof.
  split; [vm_compute; reflexivity|]. split; [vm_compute; reflexivity|].
  intros [Hs _]. vm_compute in Hs. inversion Hs as [|? ? Hneg _]; subst.
  now apply Hneg.
Qed.

(** C9 (amended).  The parsers keep the sign that is written: for texts
    without a minus sign every stay has nights >= 0 and every expense an
    amount that is >= 0 or NaN. *)
Theorem parsed_numbers_keep_written_sign (stays_text expenses_text : string) :
  Py.contains "-" stays_text = false ->
  Py.contains "-" expenses_text = false ->
  Forall (fun s => 0 <= nights s) (parse_stays stays_text) /\
  Forall (fun e => B64.is_nan (amount e) = true \/ SFleb (S754_zero false) (amount e) = true)
         (parse_expenses expenses_text).
Proof.
  intros Hs He. split.
  - eapply ParserFacts.Forall_omap; [apply ParserFacts.no_minus_lines, Hs|].
    apply ParserFacts.parse_stays_line_nonneg.
  - eapply ParserFacts.Forall_omap; [apply ParserFacts.no_minus_lines, He|].
    apply ParserFacts.parse_expenses_line_nonneg.
Qed.

(** C9 (witness): a stay of 7 nights and an amount written [nan]. *)
Lemma parsed_numbers_keep_written_sign_witness :
  Forall (fun s => 0 <= nights s) (parse_stays "John,7") /\
  Forall (fun e => B64.is_nan (amount e) = true \/ SFleb (S754_zero false) (amount e) = true)
         (parse_expenses "Adams,rent,nan").
Proof.
  apply (parsed_numbers_keep_written_sign "John,7" "Adams,rent,nan"); reflexivity.
Defined.

(* ===================================================================== *)
(** * Further properties of the code *)
(* ===================================================================== *)

(* ===================================================================== *)
(** ** What the aggregators add up *)
(* ===================================================================== *)

Lemma person_nights_from_lookup stays (m : gmap string string) (acc fn : gmap string Z) family :
  person_nights_from stays m acc = Ok fn ->
  fn !! family =
    match stays_of m stays family with
    | [] => acc !! family
    | l => Some (default 0 (acc !! family) + total_of_nights l)
    end.
Proof.
  revert acc. induction stays as [|s rest IH]; intros acc; cbn [person_nights_from].
  - intros [= <-]. reflexivity.
  - destruct (m !! member_name s) as [f|] eqn:Hm; [|discriminate].
    intros Hrest. rewrite (IH _ Hrest). unfold stays_of. cbn [List.filter]. rewrite Hm.
    fold (stays_of m rest family).
    destruct (decide (f = family)) as [->|Hne].
    + rewrite bool_decide_eq_true_2 by reflexivity. rewrite lookup_insert_eq.
      unfold total_of_nights. cbn [default from_option id].
      destruct (stays_of m rest family); cbn [List.map fold_right]; f_equal; unfold id; lia.
    + rewrite bool_decide_eq_false_2 by congruence. now rewrite lookup_insert_ne.
Qed.

Lemma person_nights_from_total stays (m : gmap string string) (acc fn : gmap string Z) :
  person_nights_from stays m acc = Ok fn ->
  sum_values fn = sum_values acc + total_of_nights stays.
Proof.
  revert acc. induction stays as [|s rest IH]; intros acc; cbn [person_nights_from].
  - intros [= <-]. unfold total_of_nights. simpl. lia.
  - destruct (m !! member_name s) as [f|] eqn:Hm; [|discriminate].
    intros Hrest. rewrite (IH _ Hrest). unfold total_of_nights. cbn [List.map fold_right].
    fold (total_of_nights rest).
    assert (Hins : sum_values (<[f := default 0 (acc !! f) + nights s]> acc)
                   = sum_values acc + nights s); [|lia].
    destruct (acc !! f) as [v|] eqn:Hf; cbn [default from_option]; unfold id.
    + rewrite <- (insert_delete_id acc f v Hf) at 2.
      rewrite <- insert_delete_eq.
      rewrite !sum_values_insert by apply lookup_delete_eq. lia.
    + rewrite sum_values_insert by assumption. lia.
Qed.

(** X1.  When [calculate_person_nights] returns, a family is a key of the
    result exactly when some stay belongs to one of its members, and its
    value is the sum of the nights of those stays; a family whose stays add
    up to zero nights is a key with value 0. *)
Theorem calculate_person_nights_per_family (stays : list stay)
    (member_to_family : gmap string string) (family_nights : gmap string Z) (family : string) :
  calculate_person_nights stays member_to_family = Ok family_nights ->
  family_nights !! family =
    match stays_of member_to_family stays family with
    | [] => None
    | l => Some (total_of_nights l)
    end.
Proof.
  intros Hfn. rewrite (person_nights_from_lookup _ _ _ _ family Hfn), lookup_empty.
  destruct (stays_of member_to_family stays family); [reflexivity|].
  cbn [default from_option]. f_equal.
Qed.

Lemma calculate_person_nights_per_family_witness :
  exists family_nights,
    calculate_person_nights scenario_stays scenario_families = Ok family_nights
    /\ family_nights !! "Adams"%string = Some 10.
Proof.
  eexists. split; [vm_compute; reflexivity|].
  etransitivity.
  - apply (calculate_person_nights_per_family scenario_stays scenario_families).
    vm_compute; reflexivity.
  - vm_compute; reflexivity.
Defined.

(** X2.  When [calculate_person_nights] returns, the values of the result
    add up to the nights of all the stays: [sum(family_nights.values())]
    is the total of the stays block. *)
Theorem calculate_person_nights_total (stays : list stay)
    (member_to_family : gmap string string) (family_nights : gmap string Z) :
  calculate_person_nights stays member_to_family = Ok family_nights ->
  sum_values family_nights = total_of_nights stays.
Proof.
  intros Hfn. rewrite (person_nights_from_total _ _ _ _ Hfn).
  unfold sum_values. now rewrite map_fold_empty.
Qed.

Lemma calculate_person_nights_total_witness :
  exists family_nights,
    calculate_person_nights scenario_stays scenario_families = Ok family_nights
    /\ sum_values family_nights = 20.
Proof.
  eexists. split; [vm_compute; reflexivity|].
  etransitivity.
  - apply (calculate_person_nights_total scenario_stays scenario_families).
    vm_compute; reflexivity.
  - reflexivity.
Defined.

Section AggregatorFacts.
Context {F : Type} `{FloatOps F}.

Lemma add_payment_lookup (expenses : list (expense F)) (payments : gmap string F) family :
  fold_left add_payment expenses payments !! family =
    match paid_amounts family expenses with
    | [] => payments !! family
    | l => Some (fold_left f_add l (default f_zero (payments !! family)))
    end.
Proof.
  revert payments. induction expenses as [|e rest IH]; intros payments; [reflexivity|].
  cbn [fold_left]. rewrite IH. unfold paid_amounts, add_payment. cbn [List.filter].
  destruct (String.eqb_spec (paid_by_family e) family) as [->|Hne].
  - rewrite lookup_insert_eq. cbn [List.map fold_left default from_option id].
    now destruct (List.map amount _).
  - now rewrite lookup_insert_ne.
Qed.

(** X3.  [calculate_family_payments] has a key for exactly the families
    that paid an expense, and the value of a family is its amounts added
    left to right, in expense order, onto [0.0]: the expenses of the other
    families do not touch it. *)
Theorem calculate_family_payments_per_family (expenses : list (expense F)) (family : string) :
  calculate_family_payments expenses !! family =
    match paid_amounts family expenses with
    | [] => None
    | l => Some (fold_left f_add l f_zero)
    end.
Proof.
  unfold calculate_family_payments. rewrite add_payment_lookup, lookup_empty. reflexivity.
Qed.

Lemma totals_by_type_as_payments (expenses : list (expense F)) (totals : gmap string F) :
  fold_left (fun totals e =>
               <[expense_type e := f_add (default f_zero (totals !! expense_type e)) (amount e)]> totals)
            expenses totals
  = fold_left add_payment (List.map by_type expenses) totals.
Proof.
  revert totals. induction expenses as [|e rest IH]; intros totals; [reflexivity|].
  cbn [fold_left List.map]. rewrite IH. reflexivity.
Qed.

(** X4.  [calculate_expense_totals_by_type] has a key for exactly the
    categories that occur, and the value of a category is its amounts
    added left to right, in expense order, onto [0.0]. *)
Theorem calculate_expense_totals_by_type_per_type (expenses : list (expense F))
    (category : string) :
  calculate_expense_totals_by_type expenses !! category =
    match typed_amounts category expenses with
    | [] => None
    | l => Some (fold_left f_add l f_zero)
    end.
Proof.
  unfold calculate_expense_totals_by_type. rewrite totals_by_type_as_payments.
  rewrite add_payment_lookup, lookup_empty.
  replace (paid_amounts category (List.map by_type expenses)) with (typed_amounts category expenses);
    [reflexivity|].
  unfold paid_amounts, typed_amounts. induction expenses as [|e rest IH]; [reflexivity|].
  cbn [List.map List.filter by_type paid_by_family].
  destruct (String.eqb (expense_type e) category); cbn [List.map amount]; now rewrite IH.
Qed.
End AggregatorFacts.



(* ===================================================================== *)
(** ** The order of the sorted lists *)
(* ===================================================================== *)

(** A list has one sorted arrangement when the comparison is transitive
    on its elements and no two of them compare as equal. *)
Section SortUnique.
Context {A : Type} (lt : A -> A -> bool) (P : A -> Prop).
Hypothesis lt_asym : forall a b, lt a b = true -> lt b a = false.
Hypothesis le_trans : forall a b c, P a -> P b -> P c ->
  lt b a = false -> lt c b = false -> lt c a = false.

Lemma insert_sorted_strongly x l :
  P x -> Forall P l ->
  StronglySorted (fun a b => lt b a = false) l ->
  StronglySorted (fun a b => lt b a = false) (insert_sorted lt x l).
Proof using lt_asym le_trans.
  intros Hx Hl Hs. induction Hs as [|y l Hs IH Hall]; cbn [insert_sorted].
  - repeat constructor.
  - apply Forall_cons in Hl as [Hy Hl]. destruct (lt x y) eqn:Hxy.
    + constructor; [now constructor|]. constructor; [now apply lt_asym|].
      rewrite List.Forall_forall in *. intros z Hz.
      apply (le_trans x y z); auto.
    + constructor; [now apply IH|].
      eapply Permutation_Forall; [apply insert_sorted_perm|]. now constructor.
Qed.

Lemma list_sort_strongly l :
  Forall P l -> StronglySorted (fun a b => lt b a = false) (list_sort lt l).
Proof using lt_asym le_trans.
  unfold list_sort.
  assert (Hnil : StronglySorted (fun a b => lt b a = false) (@nil A) /\ Forall P (@nil A))
    by (split; constructor).
  revert Hnil. generalize (@nil A).
  induction l as [|x l IH]; intros acc [Hacc HP] Hl; cbn [fold_left]; [assumption|].
  apply Forall_cons in Hl as [Hx Hl]. apply IH; [|assumption]. split.
  - now apply insert_sorted_strongly.
  - eapply Permutation_Forall; [apply insert_sorted_perm|]. now constructor.
Qed.

Lemma strongly_sorted_unique l l' :
  Permutation l l' ->
  (forall a b, In a l -> In b l -> lt b a = false -> lt a b = false -> a = b) ->
  StronglySorted (fun a b => lt b a = false) l ->
  StronglySorted (fun a b => lt b a = false) l' ->
  l = l'.
Proof.
  intros Hp Hanti Hs. revert l' Hp. induction Hs as [|x l Hs IH Hall]; intros l' Hp Hs'.
  - now apply Permutation_nil in Hp.
  - destruct Hs' as [|x' l' Hs' Hall'].
    + apply Permutation_sym, Permutation_nil in Hp. discriminate.
    + assert (Hxx : x = x').
      { assert (Hin' : In x' (x :: l))
          by (eapply Permutation_in; [symmetry; exact Hp|now left]).
        assert (Hin : In x (x' :: l'))
          by (eapply Permutation_in; [exact Hp|now left]).
        destruct Hin' as [Heq|Hin']; [assumption|].
        destruct Hin as [Heq|Hin]; [now symmetry|].
        rewrite List.Forall_forall in Hall, Hall'.
        apply Hanti; [now left|now right|now apply Hall|now apply Hall']. }
      subst x'. f_equal. apply IH.
      * intros a b Ha Hb. apply Hanti; now right.
      * eapply Permutation_cons_inv, Hp.
      * assumption.
Qed.

Lemma list_sort_unique l l' :
  Permutation l l' -> Forall P l ->
  (forall a b, In a l -> In b l -> lt b a = false -> lt a b = false -> a = b) ->
  list_sort lt l = list_sort lt l'.
Proof using lt_asym le_trans.
  intros Hp HP Hanti. apply strongly_sorted_unique.
  - rewrite <- !list_sort_perm. assumption.
  - intros a b Ha Hb. apply Hanti;
      (eapply Permutation_in; [symmetry; apply list_sort_perm|eassumption]).
  - now apply list_sort_strongly.
  - apply list_sort_strongly. eapply Permutation_Forall; eassumption.
Qed.
End SortUnique.

Lemma filter_perm {A} (p : A -> bool) l l' :
  Permutation l l' -> Permutation (List.filter p l) (List.filter p l').
Proof.
  induction 1 as [|x l l' Hp IH|x y l|l l' l'' Hp IH Hp' IH']; cbn [List.filter].
  - constructor.
  - destruct (p x); [now constructor|assumption].
  - destruct (p x), (p y); try reflexivity. apply perm_swap.
  - now transitivity (List.filter p l').
Qed.

Lemma NoDup_fst_inj {A B} (l : list (A * B)) a b :
  NoDup (List.map fst l) -> In a l -> In b l -> a.1 = b.1 -> a = b.
Proof.
  induction l as [|x l IH]; cbn [List.map]; [contradiction|].
  intros [Hx Hnd]%NoDup_cons.
  intros [->|Ha] [->|Hb] Heq; auto.
  - exfalso. apply Hx. rewrite Heq. now apply list_elem_of_In, List.in_map.
  - exfalso. apply Hx. rewrite <- Heq. now apply list_elem_of_In, List.in_map.
Qed.

Lemma NoDup_map_fst_filter {A B} (p : A * B -> bool) (l : list (A * B)) :
  NoDup (List.map fst l) -> NoDup (List.map fst (List.filter p l)).
Proof.
  induction l as [|x l IH]; cbn [List.map List.filter]; [constructor|].
  intros [Hx Hnd]%NoDup_cons.
  destruct (p x); [|auto]. cbn [List.map]. apply NoDup_cons. split; [|auto].
  intros Hin. apply Hx. apply list_elem_of_In. apply list_elem_of_In in Hin.
  apply List.in_map_iff in Hin as (y & Hy & Hin).
  apply List.filter_In in Hin as [Hin _]. rewrite <- Hy. now apply List.in_map.
Qed.

(** Floats that are not NaN compare as their ranks do, and the entries
    of a list as [goes_before] says. *)
Section Binary64Order.
Import B64 B64Facts.

Lemma ltb_rank x y :
  is_nan x = false -> is_nan y = false ->
  (SFltb x y = true <-> rank_lt (rank x) (rank y)).
Proof.
  unfold SFltb, rank_lt.
  destruct x as [[]|[]| |[] m1 e1], y as [[]|[]| |[] m2 e2]; try discriminate; intros _ _;
    cbn [SFcompare rank fst snd];
    try (split; [intros; lia|reflexivity]); try (split; [discriminate|intros; lia]).
  - destruct (Z.compare_spec e1 e2); cbn [CompOpp];
      try (split; [intros; lia|reflexivity]); try (split; [discriminate|intros; lia]).
    change (Pos.compare_cont Eq m1 m2) with (Pos.compare m1 m2).
    destruct (Pos.compare_spec m1 m2); cbn [CompOpp];
      try (split; [intros; lia|reflexivity]); try (split; [discriminate|intros; lia]).
  - destruct (Z.compare_spec e1 e2); cbn [CompOpp];
      try (split; [intros; lia|reflexivity]); try (split; [discriminate|intros; lia]).
    change (Pos.compare_cont Eq m1 m2) with (Pos.compare m1 m2).
    destruct (Pos.compare_spec m1 m2); cbn [CompOpp];
      try (split; [intros; lia|reflexivity]); try (split; [discriminate|intros; lia]).
Qed.

Lemma eqb_rank x y :
  is_nan x = false -> is_nan y = false ->
  (SFeqb x y = true <-> rank x = rank y).
Proof.
  unfold SFeqb.
  destruct x as [[]|[]| |[] m1 e1], y as [[]|[]| |[] m2 e2]; try discriminate; intros _ _;
    cbn [SFcompare rank]; try (split; [reflexivity|reflexivity]);
    try (split; [discriminate|intros [=]; lia]).
  - destruct (Z.compare_spec e1 e2); try (split; [discriminate|intros [=]; lia]).
    change (Pos.compare_cont Eq m1 m2) with (Pos.compare m1 m2).
    destruct (Pos.compare_spec m1 m2); cbn [CompOpp];
      try (split; [discriminate|intros [=]; lia]).
    subst. split; reflexivity.
  - destruct (Z.compare_spec e1 e2); try (split; [discriminate|intros [=]; lia]).
    change (Pos.compare_cont Eq m1 m2) with (Pos.compare m1 m2).
    destruct (Pos.compare_spec m1 m2); cbn [CompOpp];
      try (split; [discriminate|intros [=]; lia]).
    subst. split; reflexivity.
Qed.
Lemma triple_eq (a b c a' b' c' : Z) :
  (a, b, c) = (a', b', c') <-> a = a' /\ b = b' /\ c = c'.
Proof. split; [intros [= -> -> ->]|intros (-> & -> & ->)]; auto. Qed.

Lemma name_lt_trans a b c : name_lt a b -> name_lt b c -> name_lt a c.
Proof.
  unfold name_lt. rewrite !OrderedTypeEx.String_as_OT.cmp_lt.
  apply OrderedTypeEx.String_as_OT.lt_trans.
Qed.

Lemma name_lt_total a b : name_lt a b \/ a = b \/ name_lt b a.
Proof.
  unfold name_lt. rewrite (String.compare_antisym a b).
  destruct (String.compare b a) eqn:Hc; cbn [CompOpp]; auto.
  apply String.compare_eq_iff in Hc. auto.
Qed.

Lemma name_lt_irrefl a : ~ name_lt a a.
Proof.
  unfold name_lt. intros Hlt. pose proof (String.compare_antisym a a) as Ha.
  rewrite Hlt in Ha. discriminate.
Qed.

Lemma spec_before_goes_before (x y : string * spec_float) :
  is_nan x.2 = false -> is_nan y.2 = false ->
  (spec_before x y = true <-> goes_before x y).
Proof.
  intros Hx Hy. unfold spec_before, goes_before, name_lt, String.ltb.
  cbn [f_lt f_eq binary64].
  rewrite orb_true_iff, andb_true_iff, (ltb_rank _ _ Hy Hx), (eqb_rank _ _ Hx Hy).
  destruct (String.compare x.1 y.1); intuition congruence.
Qed.

Lemma not_goes_before (x y : string * spec_float) :
  ~ goes_before y x <-> goes_before x y \/ (rank x.2 = rank y.2 /\ x.1 = y.1).
Proof.
  unfold goes_before.
  destruct (rank x.2) as [[a1 a2] a3], (rank y.2) as [[b1 b2] b3].
  unfold rank_lt. cbn [fst snd]. rewrite !triple_eq.
  pose proof (name_lt_total x.1 y.1) as Hn.
  pose proof (name_lt_irrefl x.1) as Hi.
  pose proof (fun H H' => name_lt_irrefl _ (name_lt_trans x.1 y.1 x.1 H H')) as Hxy.
  split.
  - intros Hnot.
    assert (Hr : (b1 < a1 \/ b1 = a1 /\ (b2 < a2 \/ b2 = a2 /\ b3 < a3))
                 \/ (a1 = b1 /\ a2 = b2 /\ a3 = b3)) by lia.
    destruct Hr as [Hr|Hr]; [now left; left|].
    destruct Hn as [Hn|[Hn|Hn]]; [left; right; split; [lia|assumption]|right; split; [lia|assumption]|].
    exfalso. apply Hnot. right. split; [lia|assumption].
  - intros [[Hlt|[Heq Hlt]]|[Heq Heqn]] [Hlt'|[Heq' Hlt']]; try lia; auto.
    + rewrite Heqn in Hlt'. now apply name_lt_irrefl in Hlt'.
Qed.

Lemma goes_before_trans (x y z : string * spec_float) :
  goes_before x y -> goes_before y z -> goes_before x z.
Proof.
  unfold goes_before.
  destruct (rank x.2) as [[a1 a2] a3], (rank y.2) as [[b1 b2] b3], (rank z.2) as [[c1 c2] c3].
  unfold rank_lt. cbn [fst snd]. rewrite !triple_eq.
  intros [Hxy|[Hxy Hn]] [Hyz|[Hyz Hn']].
  - left. lia.
  - left. lia.
  - left. lia.
  - right. split; [lia|]. eapply name_lt_trans; eassumption.
Qed.

Lemma goes_before_congr (x y z : string * spec_float) :
  rank x.2 = rank y.2 -> x.1 = y.1 -> goes_before y z -> goes_before x z.
Proof. unfold goes_before. intros -> ->. auto. Qed.

Lemma goes_before_congr_r (x y z : string * spec_float) :
  rank y.2 = rank z.2 -> y.1 = z.1 -> goes_before x y -> goes_before x z.
Proof. unfold goes_before. intros -> ->. auto. Qed.

Lemma entry_lt_asym (x y : string * spec_float) :
  entry_lt x y = true -> entry_lt y x = false.
Proof. rewrite !entry_lt_spec_before. apply spec_before_asym. Qed.

Lemma entry_le_trans (a b c : string * spec_float) :
  not_nan a -> not_nan b -> not_nan c ->
  entry_lt b a = false -> entry_lt c b = false -> entry_lt c a = false.
Proof.
  unfold not_nan. intros Ha Hb Hc. rewrite !entry_lt_spec_before.
  rewrite <- !not_true_iff_false, !spec_before_goes_before by assumption.
  rewrite !not_goes_before.
  intros [Hab|[Hr Hn]] [Hbc|[Hr' Hn']].
  - left. eapply goes_before_trans; eassumption.
  - left. eapply goes_before_congr_r; eassumption.
  - left. eapply goes_before_congr; eassumption.
  - right. split; congruence.
Qed.

Lemma entry_le_antisym (a b : string * spec_float) :
  not_nan a -> not_nan b ->
  entry_lt b a = false -> entry_lt a b = false -> a.1 = b.1.
Proof.
  unfold not_nan. intros Ha Hb. rewrite !entry_lt_spec_before.
  rewrite <- !not_true_iff_false, !spec_before_goes_before by assumption.
  rewrite (not_goes_before a b). intros [Hab|[_ Hn]] Hnot; [contradiction|assumption].
Qed.

Lemma spec_debtors_not_nan (balances : list (string * spec_float)) :
  Forall not_nan (spec_debtors balances).
Proof.
  unfold spec_debtors. rewrite List.Forall_forall. intros x Hin.
  apply List.in_map_iff in Hin as ([family b] & <- & Hin).
  apply List.filter_In in Hin as [_ Hlt]. cbn [fst snd f_lt f_neg binary64] in *.
  unfold not_nan. now destruct b.
Qed.

Lemma spec_creditors_not_nan (balances : list (string * spec_float)) :
  Forall not_nan (spec_creditors balances).
Proof.
  unfold spec_creditors. rewrite List.Forall_forall. intros [family b] Hin.
  apply List.filter_In in Hin as [_ Hlt]. cbn [fst snd f_lt f_cent binary64] in *.
  unfold not_nan. cbn [snd]. destruct b; try reflexivity.
  now rewrite ltb_nan_r in Hlt.
Qed.

Lemma spec_debtors_names (balances : list (string * spec_float)) :
  List.map fst (spec_debtors balances)
  = List.map fst (List.filter (fun x => f_lt x.2 (f_neg f_cent)) balances).
Proof. unfold spec_debtors. rewrite List.map_map. reflexivity. Qed.

Lemma sorted_entries_unique (l l' : list (string * spec_float)) :
  Permutation l l' -> Forall not_nan l -> NoDup (List.map fst l) ->
  list_sort entry_lt l = list_sort entry_lt l'.
Proof.
  intros Hp Hnan Hnd. apply (list_sort_unique entry_lt not_nan); auto.
  - apply entry_lt_asym.
  - apply entry_le_trans.
  - intros a b Ha Hb Hba Hab. apply (NoDup_fst_inj l); auto.
    rewrite List.Forall_forall in Hnan. apply entry_le_antisym; auto.
Qed.

(** X6.  The transfers do not depend on the order in which the balance
    mapping is iterated: two listings of the same items, with pairwise
    distinct families, give the same result (and the loop exits on both or
    on neither). *)
Theorem calculate_settlements_order_independent (fuel : nat)
    (balances balances' : list (string * spec_float)) :
  NoDup (List.map fst balances) -> Permutation balances balances' ->
  calculate_settlements fuel balances' = calculate_settlements fuel balances.
Proof.
  intros Hnd Hp. unfold calculate_settlements. rewrite !partition_balances_spec.
  f_equal; symmetry; apply sorted_entries_unique.
  - unfold spec_debtors. now apply Permutation_map, filter_perm.
  - apply spec_debtors_not_nan.
  - rewrite spec_debtors_names. now apply NoDup_map_fst_filter.
  - unfold spec_creditors. now apply filter_perm.
  - apply spec_creditors_not_nan.
  - unfold spec_creditors. now apply NoDup_map_fst_filter.
Qed.

Lemma calculate_settlements_order_independent_witness :
  calculate_settlements 5 [("Oiler"%string, literal "-25"); ("Adams"%string, literal "25")]
  = calculate_settlements 5 scenario_balances.
Proof.
  apply calculate_settlements_order_independent.
  - apply (bool_decide_unpack _). vm_compute. exact I.
  - apply perm_swap.
Defined.
End Binary64Order.

(* ===================================================================== *)
(** ** Who pays, who receives, and when the loop exits *)
(* ===================================================================== *)

Section Binary64Transfers.
Import B64 B64Facts.

Lemma payer_is_debtor fuel (balances : list (string * spec_float)) ts t :
  calculate_settlements fuel balances = Some ts -> In t ts ->
  (exists b, In (t.1.1, b) balances /\ SFltb b (SFopp cent) = true)
  /\ (exists b, In (t.1.2, b) balances /\ SFltb cent b = true).
Proof.
  unfold calculate_settlements. rewrite partition_balances_spec.
  intros Hts Hin. destruct t as [[payer payee] amount].
  destruct (settle_loop_names _ _ _ _ Hts _ _ _ Hin) as [Hp Hq]. cbn [fst snd]. split.
  - apply (Permutation_in _ (Permutation_sym (Permutation_map fst (list_sort_perm _ _)))) in Hp.
    unfold spec_debtors in Hp. rewrite List.map_map in Hp.
    apply List.in_map_iff in Hp as ([family b] & <- & Hp).
    apply List.filter_In in Hp as [Hp Hlt]. eauto.
  - apply (Permutation_in _ (Permutation_sym (Permutation_map fst (list_sort_perm _ _)))) in Hq.
    apply List.in_map_iff in Hq as ([family b] & <- & Hq).
    apply List.filter_In in Hq as [Hq Hlt]. eauto.
Qed.

(** X7.  No family both pays and receives: with pairwise distinct
    families, the payer of a transfer is never the payee of a transfer (of
    the same one in particular). *)
Theorem no_family_pays_and_receives (fuel : nat) (balances : list (string * spec_float))
    (ts : list (string * string * spec_float)) :
  NoDup (List.map fst balances) ->
  calculate_settlements fuel balances = Some ts ->
  forall t t', In t ts -> In t' ts -> t.1.1 <> t'.1.2.
Proof.
  intros Hnd Hts t t' Ht Ht' Heq.
  destruct (payer_is_debtor _ _ _ _ Hts Ht) as [(b & Hb & Hlt) _].
  destruct (payer_is_debtor _ _ _ _ Hts Ht') as [_ (b' & Hb' & Hlt')].
  assert (Hsame : (t.1.1, b) = (t'.1.2, b')) by (apply (NoDup_fst_inj balances); auto).
  injection Hsame as _ ->. apply debtor_not_creditor in Hlt. congruence.
Qed.

Lemma no_family_pays_and_receives_witness :
  exists ts, calculate_settlements 5 leftover_balances = Some ts
             /\ forall t t', In t ts -> In t' ts -> t.1.1 <> t'.1.2.
Proof.
  eexists. split; [vm_compute; reflexivity|].
  apply (no_family_pays_and_receives 5 leftover_balances).
  - apply (bool_decide_unpack _). vm_compute. exact I.
  - vm_compute; reflexivity.
Defined.

Lemma first_round_emits fuel (ds cs : list (string * spec_float)) ts :
  Forall (fun x => SFltb cent x.2 = true) ds ->
  Forall (fun x => SFltb cent x.2 = true) cs ->
  ds <> [] -> cs <> [] ->
  settle_loop fuel ds cs = Some ts -> ts <> [].
Proof.
  intros Hd Hc Hdn Hcn.
  destruct ds as [|[debtor d] ds]; [contradiction|].
  destruct cs as [|[creditor c] cs]; [contradiction|].
  apply Forall_cons in Hd as [Hd _]. apply Forall_cons in Hc as [Hc _]. cbn [snd] in *.
  destruct fuel as [|fuel]; cbn [settle_loop settle_step]; [discriminate|].
  destruct (settle_loop fuel _ _) as [rest|]; [|discriminate].
  assert (Hmin : f_lt f_cent (py_min d c) = true).
  { unfold py_min. cbn [f_lt f_cent binary64]. now destruct (SFltb c d). }
  rewrite Hmin. intros [= <-]. discriminate.
Qed.

(** X8.  When the loop exits, the result holds a transfer exactly when
    some balance is below [-0.01] and some balance is above [0.01]; with
    debtors only or creditors only nothing is emitted. *)
Theorem transfers_exist_iff_both_sides (fuel : nat) (balances : list (string * spec_float))
    (ts : list (string * string * spec_float)) :
  calculate_settlements fuel balances = Some ts ->
  (ts <> [] <->
   Exists (fun x => SFltb x.2 (SFopp cent) = true) balances
   /\ Exists (fun x => SFltb cent x.2 = true) balances).
Proof.
  intros Hts. split.
  - destruct ts as [|t ts]; [contradiction|]. intros _.
    destruct (payer_is_debtor _ _ _ _ Hts (or_introl eq_refl)) as [(b & Hb & Hlt) (b' & Hb' & Hlt')].
    rewrite !List.Exists_exists. split; [exists (t.1.1, b)|exists (t.1.2, b')]; now split.
  - intros [Hd Hc]. revert Hts. unfold calculate_settlements. rewrite partition_balances_spec.
    apply first_round_emits.
    + eapply Permutation_Forall; [apply list_sort_perm|].
      unfold spec_debtors. rewrite List.Forall_forall. intros x Hin.
      apply List.in_map_iff in Hin as ([family b] & <- & Hin).
      apply List.filter_In in Hin as [_ Hlt]. cbn [fst snd f_lt f_neg f_cent binary64] in *.
      now rewrite ltb_opp_r in Hlt.
    + eapply Permutation_Forall; [apply list_sort_perm|].
      unfold spec_creditors. rewrite List.Forall_forall. intros x Hin.
      now apply List.filter_In in Hin as [_ Hlt].
    + intros Hnil. apply List.Exists_exists in Hd as (x & Hx & Hlt).
      assert (Hin : In (x.1, SFopp x.2) (list_sort entry_lt (spec_debtors balances))).
      { eapply Permutation_in; [apply list_sort_perm|]. unfold spec_debtors.
        apply List.in_map_iff. exists x. split; [reflexivity|].
        apply List.filter_In. split; assumption. }
      rewrite Hnil in Hin. contradiction.
    + intros Hnil. apply List.Exists_exists in Hc as (x & Hx & Hlt).
      assert (Hin : In x (list_sort entry_lt (spec_creditors balances))).
      { eapply Permutation_in; [apply list_sort_perm|]. unfold spec_creditors.
        apply List.filter_In. split; assumption. }
      rewrite Hnil in Hin. contradiction.
Qed.
Lemma transfers_exist_iff_both_sides_witness :
  exists ts, calculate_settlements 5 scenario_balances = Some ts
             /\ (ts <> [] <->
                 Exists (fun x => SFltb x.2 (SFopp cent) = true) scenario_balances
                 /\ Exists (fun x => SFltb cent x.2 = true) scenario_balances).
Proof.
  eexists. split; [vm_compute; reflexivity|].
  apply (transfers_exist_iff_both_sides 5 scenario_balances). vm_compute; reflexivity.
Defined.

Lemma settle_loop_more_fuel {F} `{FloatOps F} fuel extra (ds cs : list (string * F)) ts :
  settle_loop fuel ds cs = Some ts -> settle_loop (fuel + extra) ds cs = Some ts.
Proof.
  revert ds cs ts. induction fuel as [|fuel IH]; intros ds cs ts.
  - cbn [settle_loop]. destruct (settle_step ds cs) as [[[e ds'] cs']|] eqn:Hstep; [discriminate|].
    intros [= <-]. destruct (0 + extra)%nat; cbn [settle_loop]; now rewrite Hstep.
  - cbn [settle_loop Nat.add]. destruct (settle_step ds cs) as [[[e ds'] cs']|]; [|auto].
    destruct (settle_loop fuel ds' cs') as [rest|] eqn:Hrest; [|discriminate].
    now rewrite (IH _ _ _ Hrest).
Qed.

(** X9.  On finite balances the loop exits after at most as many
    iterations as there are families outside the tolerance: one and the
    same list of transfers is returned for every such bound on the number
    of iterations. *)
Theorem calculate_settlements_returns_on_finite_balances
    (balances : list (string * spec_float)) :
  Forall (fun x => is_finite x.2 = true) balances ->
  exists ts, forall fuel, (count_outside balances <= fuel)%nat ->
    calculate_settlements fuel balances = Some ts.
Proof.
  intros Hfin.
  destruct (calculate_settlements_finite balances (count_outside balances) Hfin (le_n _))
    as [ts Hts].
  exists ts. intros fuel Hfuel.
  replace fuel with (count_outside balances + (fuel - count_outside balances))%nat by lia.
  revert Hts. unfold calculate_settlements.
  destruct (partition_balances balances) as [debtors creditors].
  apply settle_loop_more_fuel.
Qed.

Lemma calculate_settlements_returns_on_finite_balances_witness :
  exists ts, forall fuel, (count_outside scenario_balances <= fuel)%nat ->
    calculate_settlements fuel scenario_balances = Some ts.
Proof.
  apply (calculate_settlements_returns_on_finite_balances scenario_balances).
  repeat constructor.
Defined.

Lemma sorted_head_is_infinite (l : list (string * spec_float)) :
  Forall not_nan l -> Exists (fun x => x.2 = S754_infinity false) l ->
  exists name rest, list_sort entry_lt l = (name, S754_infinity false) :: rest.
Proof.
  intros Hnan Hinf.
  pose proof (list_sort_strongly entry_lt not_nan entry_lt_asym entry_le_trans l Hnan) as Hs.
  assert (Hnan' : Forall not_nan (list_sort entry_lt l))
    by (eapply Permutation_Forall; [apply list_sort_perm|assumption]).
  assert (Hinf' : Exists (fun x => x.2 = S754_infinity false) (list_sort entry_lt l)).
  { apply List.Exists_exists in Hinf as (x & Hx & Hxi). apply List.Exists_exists.
    exists x. split; [|assumption]. eapply Permutation_in; [apply list_sort_perm|assumption]. }
  destruct Hs as [|[name h] rest Hs Hall].
  - inversion Hinf'.
  - exists name, rest. f_equal. f_equal.
    apply Forall_cons in Hnan' as [Hh _]. unfold not_nan in Hh. cbn [snd] in Hh.
    apply Exists_cons in Hinf' as [Hhead|Htail]; [assumption|].
    apply List.Exists_exists in Htail as ([name' x] & Hin & Hx). cbn [snd] in Hx. subst x.
    rewrite List.Forall_forall in Hall. specialize (Hall _ Hin). cbn beta in Hall.
    rewrite entry_lt_spec_before in Hall. unfold spec_before in Hall.
    cbn [fst snd f_lt f_eq binary64] in Hall. apply orb_false_iff in Hall as [Hlt _].
    now destruct h as [[]|[]| |[] m e].
Qed.

(** X10.  Whenever the balance mapping holds a balance of minus infinity
    and a balance of plus infinity, whatever else it holds, the loop never
    exits: both sorted lists start with an infinite amount, and the first
    round leaves NaN on both heads. *)
Theorem calculate_settlements_loops_with_both_infinities
    (balances : list (string * spec_float)) (fuel : nat) :
  Exists (fun x => x.2 = S754_infinity true) balances ->
  Exists (fun x => x.2 = S754_infinity false) balances ->
  calculate_settlements fuel balances = None.
Proof.
  intros Hneg Hpos. unfold calculate_settlements. rewrite partition_balances_spec.
  destruct (sorted_head_is_infinite (spec_debtors balances)) as (debtor & ds & ->).
  { apply spec_debtors_not_nan. }
  { apply List.Exists_exists in Hneg as ([family b] & Hin & Hb). cbn [snd] in Hb. subst b.
    apply List.Exists_exists. exists (family, S754_infinity false). split; [|reflexivity].
    unfold spec_debtors. apply List.in_map_iff. exists (family, S754_infinity true).
    split; [reflexivity|]. apply List.filter_In. split; [assumption|reflexivity]. }
  destruct (sorted_head_is_infinite (spec_creditors balances)) as (creditor & cs & ->).
  { apply spec_creditors_not_nan. }
  { apply List.Exists_exists in Hpos as ([family b] & Hin & Hb). cbn [snd] in Hb. subst b.
    apply List.Exists_exists. exists (family, S754_infinity false). split; [|reflexivity].
    unfold spec_creditors. apply List.filter_In. split; [assumption|reflexivity]. }
  destruct fuel as [|fuel]; [reflexivity|].
  cbn [settle_loop settle_step]. unfold py_min. cbn [f_lt f_sub f_cent binary64].
  change (SFltb (S754_infinity false) (S754_infinity false)) with false. cbv iota.
  change (sub (S754_infinity false) (S754_infinity false)) with S754_nan.
  rewrite ltb_nan_l. now rewrite stuck_loops by (now left).
Qed.

Lemma calculate_settlements_loops_with_both_infinities_witness :
  calculate_settlements 1000
    [("A"%string, literal "3"); ("B"%string, S754_infinity true);
     ("C"%string, S754_infinity false); ("D"%string, literal "-7")]
  = None.
Proof.
  apply calculate_settlements_loops_with_both_infinities.
  - apply Exists_cons_tl, Exists_cons_hd. reflexivity.
  - apply Exists_cons_tl, Exists_cons_tl, Exists_cons_hd. reflexivity.
Defined.
End Binary64Transfers.

(* ===================================================================== *)
(** ** The parsers *)
(* ===================================================================== *)

(** *** Stripping and splitting *)

Module StringFacts.
Import Py.

Lemma absent_cons c a s : absent c (String a s) <-> Ascii.eqb a c = false /\ absent c s.
Proof. unfold absent. cbn [contains]. now rewrite orb_false_iff. Qed.

Lemma absent_lstrip c s : absent c s -> absent c (lstrip s).
Proof.
  induction s as [|a s IH]; cbn [lstrip]; [auto|].
  intros Ha. destruct (is_space a); [|assumption]. apply IH. now apply absent_cons in Ha.
Qed.

Lemma absent_rstrip c s : absent c s -> absent c (rstrip s).
Proof.
  induction s as [|a s IH]; cbn [rstrip]; [auto|].
  intros [Ha Hs]%absent_cons. specialize (IH Hs).
  destruct (rstrip s).
  - destruct (is_space a); [reflexivity|]. now apply absent_cons.
  - now apply absent_cons.
Qed.

Lemma absent_strip c s : absent c s -> absent c (strip s).
Proof. intros Hs. now apply absent_rstrip, absent_lstrip. Qed.

Lemma absent_split c sep s : absent c s -> Forall (absent c) (split sep s).
Proof.
  induction s as [|a s IH]; cbn [split].
  - now repeat constructor.
  - intros [Ha Hs]%absent_cons. specialize (IH Hs).
    destruct (Ascii.eqb a sep).
    + now constructor.
    + destruct (split sep s) as [|piece pieces].
      * repeat constructor. now apply absent_cons.
      * apply Forall_cons in IH as [Hp Hps]. constructor; [|assumption]. now apply absent_cons.
Qed.

Lemma split_pieces sep s : Forall (absent sep) (split sep s).
Proof.
  induction s as [|a s IH]; cbn [split].
  - now repeat constructor.
  - destruct (Ascii.eqb a sep) eqn:Ha.
    + now constructor.
    + destruct (split sep s) as [|piece pieces].
      * repeat constructor. now apply absent_cons.
      * apply Forall_cons in IH as [Hp Hps]. constructor; [|assumption]. now apply absent_cons.
Qed.

Lemma absent_split_once c sep s :
  absent c s -> absent c (split_once sep s).1 /\ absent c (split_once sep s).2.
Proof.
  induction s as [|a s IH]; cbn [split_once]; [auto|].
  intros [Ha Hs]%absent_cons. destruct (Ascii.eqb a sep); [now split|].
  destruct (IH Hs) as [H1 H2]. destruct (split_once sep s) as [before after]. cbn [fst snd] in *.
  split; [now apply absent_cons|assumption].
Qed.

Lemma split_once_before sep s : absent sep (split_once sep s).1.
Proof.
  induction s as [|a s IH]; cbn [split_once]; [reflexivity|].
  destruct (Ascii.eqb a sep) eqn:Ha; [reflexivity|].
  destruct (split_once sep s) as [before after]. cbn [fst] in *. now apply absent_cons.
Qed.

Lemma rstrip_idem s : rstrip (rstrip s) = rstrip s.
Proof.
  induction s as [|a s IH]; cbn [rstrip]; [reflexivity|].
  destruct (rstrip s) as [|b r] eqn:Hr.
  - destruct (is_space a) eqn:Ha; cbn [rstrip]; [reflexivity|]. now rewrite Ha.
  - cbn [rstrip]. cbn [rstrip] in IH. now rewrite IH.
Qed.

Lemma rstrip_head a s : is_space a = false -> rstrip (String a s) = String a (rstrip s).
Proof. intros Ha. cbn [rstrip]. destruct (rstrip s); [now rewrite Ha|reflexivity]. Qed.

Lemma lstrip_head s : match lstrip s with String a _ => is_space a = false | EmptyString => True end.
Proof.
  induction s as [|a s IH]; cbn [lstrip]; [exact I|].
  destruct (is_space a) eqn:Ha; [assumption|exact Ha].
Qed.

Lemma strip_head s : match strip s with String a _ => is_space a = false | EmptyString => True end.
Proof.
  unfold strip. pose proof (lstrip_head s) as Hl. destruct (lstrip s) as [|a r]; [exact I|].
  now rewrite (rstrip_head _ _ Hl).
Qed.

Lemma strip_idem s : strip (strip s) = strip s.
Proof.
  pose proof (strip_head s) as Hh. unfold strip at 1.
  destruct (strip s) as [|a r] eqn:Hs; [reflexivity|].
  cbn [lstrip]. rewrite Hh, <- Hs. unfold strip. apply rstrip_idem.
Qed.
Lemma append_cons c a b : (String c a ++ b)%string = String c (a ++ b).
Proof. reflexivity. Qed.

Lemma append_nil b : ("" ++ b)%string = b.
Proof. reflexivity. Qed.

Lemma split_app sep a b :
  Py.split sep (a ++ String sep b) = Py.split sep a ++ Py.split sep b.
Proof.
  induction a as [|c a IH]; rewrite ?append_nil, ?append_cons; cbn [Py.split].
  - now rewrite Ascii.eqb_refl.
  - rewrite IH. destruct (Ascii.eqb c sep); [reflexivity|].
    destruct (Py.split sep a) as [|piece pieces] eqn:Hs; [|reflexivity].
    destruct a as [|c' a]; cbn [Py.split] in Hs; [discriminate|].
    destruct (Ascii.eqb c' sep); [discriminate|]. destruct (Py.split sep a); discriminate.
Qed.

Lemma contains_app sep a b : Py.contains sep (a ++ String sep b) = true.
Proof.
  induction a as [|c a IH]; rewrite ?append_nil, ?append_cons; cbn [Py.contains].
  - now rewrite Ascii.eqb_refl.
  - rewrite IH. apply orb_true_r.
Qed.

Lemma append_not_empty a c b : String.eqb (a ++ String c b) "" = false.
Proof. now destruct a. Qed.

Lemma split_two sep s :
  Py.contains sep s = true -> exists a b rest, Py.split sep s = a :: b :: rest.
Proof.
  induction s as [|c s IH]; cbn [Py.contains Py.split]; [discriminate|].
  destruct (Ascii.eqb c sep); cbn [orb].
  - intros _. destruct s as [|c' s]; cbn [Py.split]; [eauto|].
    destruct (Ascii.eqb c' sep); [eauto|]. destruct (Py.split sep s); eauto.
  - intros Hc. destruct (IH Hc) as (a & b & rest & ->). eauto.
Qed.

Lemma split_nonempty sep s : exists piece pieces, split sep s = piece :: pieces.
Proof.
  destruct s as [|c s]; cbn [split]; [eauto|].
  destruct (Ascii.eqb c sep); [eauto|]. destruct (split sep s); eauto.
Qed.

Lemma split_cons sep c s :
  split sep (String c s)
  = if Ascii.eqb c sep then EmptyString :: split sep s
    else match split sep s with
         | piece :: pieces => String c piece :: pieces
         | [] => [String c EmptyString]
         end.
Proof. reflexivity. Qed.

Lemma strip_space c s : is_space c = true -> strip (String c s) = strip s.
Proof. intros Hc. unfold strip. cbn [lstrip]. now rewrite Hc. Qed.

Lemma newline_is_space : is_space newline = true.
Proof. reflexivity. Qed.

Lemma lstrip_rstrip s : lstrip (rstrip s) = rstrip (lstrip s).
Proof.
  induction s as [|c s IH]; [reflexivity|].
  destruct (is_space c) eqn:Hc.
  - cbn [lstrip rstrip]. rewrite Hc, <- IH.
    destruct (rstrip s); cbn [lstrip]; now rewrite ?Hc.
  - cbn [lstrip]. rewrite Hc, (rstrip_head _ _ Hc). cbn [lstrip]. now rewrite Hc.
Qed.

End StringFacts.

(** *** The family block *)

Section FamiliesFacts.
Import StringFacts.

Lemma add_members_lookup family members (m : gmap string string) member :
  add_members family members m !! member =
    if bool_decide (member ∈ List.filter (fun member => negb (String.eqb member ""))
                                         (List.map Py.strip members))
    then Some family else m !! member.
Proof.
  unfold add_members. revert m. induction members as [|x members IH]; intros m.
  - cbn [fold_left List.map List.filter]. now rewrite bool_decide_eq_false_2 by apply not_elem_of_nil.
  - cbn [fold_left List.map List.filter]. rewrite IH.
    destruct (String.eqb_spec (Py.strip x) "") as [Hx|Hx]; cbn [negb]; [reflexivity|].
    destruct (decide (Py.strip x = member)) as [<-|Hne].
    + rewrite (bool_decide_eq_true_2 (_ ∈ _ :: _)) by apply list_elem_of_here.
      rewrite lookup_insert_eq. now destruct (bool_decide _).
    + rewrite lookup_insert_ne by assumption.
      apply (f_equal (fun b : bool => if b then Some family else m !! member)).
      apply bool_decide_ext. rewrite elem_of_cons. intuition congruence.
Qed.

Lemma parse_families_line_lookup (m : gmap string string) line member :
  parse_families_line m line !! member =
    if bool_decide (member ∈ line_members line) then Some (line_family line)
    else m !! member.
Proof.
  unfold parse_families_line, line_members, line_family.
  destruct (Py.contains ":" line) eqn:Hc.
  - destruct (String.eqb_spec line "") as [->|Hne]; [discriminate|]. cbn [orb negb].
    destruct (Py.split_once ":" line) as [family_name members_str]. cbn [fst snd].
    apply add_members_lookup.
  - rewrite orb_true_r. now rewrite bool_decide_eq_false_2 by apply not_elem_of_nil.
Qed.

Lemma fold_parse_families_lookup lines (m : gmap string string) member :
  fold_left parse_families_line lines m !! member =
    match last (List.map line_family
                  (List.filter (fun line => bool_decide (member ∈ line_members line)) lines)) with
    | Some family => Some family
    | None => m !! member
    end.
Proof.
  revert m. induction lines as [|line lines IH]; intros m; [reflexivity|].
  cbn [fold_left List.filter]. rewrite IH, parse_families_line_lookup.
  destruct (bool_decide (member ∈ line_members line)); [|reflexivity].
  cbn [List.map]. rewrite last_cons. now destruct (last _).
Qed.

(** X11.  [parse_families] maps a member to the family of the last line
    that lists it, and has no entry for a member that no line lists: a
    member listed under two families belongs to the later one. *)
Theorem parse_families_last_line_wins (text member : string) :
  parse_families text !! member = last (families_listing member text).
Proof.
  unfold parse_families, families_listing. rewrite fold_parse_families_lookup, lookup_empty.
  now destruct (last _).
Qed.

Lemma stripped_lines_absent text :
  Forall (fun line => absent newline line /\ Py.strip line = line) (stripped_lines text).
Proof.
  unfold stripped_lines. rewrite List.Forall_forall. intros line Hin.
  apply List.in_map_iff in Hin as (piece & <- & Hin).
  pose proof (split_pieces newline (Py.strip text)) as Hp.
  rewrite List.Forall_forall in Hp. split; [|apply strip_idem].
  now apply absent_strip, Hp.
Qed.

(** X12.  Every entry of [parse_families] has a member name that is not
    empty, is stripped and holds no comma and no newline, and a family name
    that is stripped and holds no colon and no newline. *)
Theorem parse_families_entries (text member family : string) :
  parse_families text !! member = Some family ->
  (member <> "" /\ Py.strip member = member
   /\ absent "," member /\ absent newline member)
  /\ (Py.strip family = family /\ absent ":" family /\ absent newline family).
Proof.
  unfold parse_families. rewrite fold_parse_families_lookup, lookup_empty.
  fold (families_listing member text). intros Hlast.
  assert (Hlast' : last (families_listing member text) = Some family)
    by (destruct (last (families_listing member text)); [assumption|discriminate]).
  clear Hlast. rename Hlast' into Hlast.
  assert (Hin : In family (families_listing member text)).
  { apply last_Some in Hlast as [l' ->]. apply List.in_or_app. right. now left. }
  unfold families_listing in Hin. apply List.in_map_iff in Hin as (line & <- & Hin).
  apply List.filter_In in Hin as [Hline Hmem].
  apply bool_decide_eq_true, list_elem_of_In in Hmem.
  pose proof (stripped_lines_absent text) as Hlines. rewrite List.Forall_forall in Hlines.
  destruct (Hlines _ Hline) as [Hnl _].
  destruct (absent_split_once newline ":" line Hnl) as [Hnl1 Hnl2].
  unfold line_members in Hmem. destruct (Py.contains ":" line); [|contradiction].
  apply List.filter_In in Hmem as [Hmem Hne].
  apply List.in_map_iff in Hmem as (piece & <- & Hpiece).
  pose proof (split_pieces "," (Py.split_once ":" line).2) as Hcomma.
  pose proof (absent_split newline "," _ Hnl2) as Hnlp.
  rewrite List.Forall_forall in Hcomma, Hnlp. unfold line_family. repeat split.
  - intros Heq. rewrite Heq in Hne. discriminate.
  - apply strip_idem.
  - now apply absent_strip, Hcomma.
  - now apply absent_strip, Hnlp.
  - apply strip_idem.
  - apply absent_strip, split_once_before.
  - now apply absent_strip.
Qed.

Lemma parse_families_entries_witness :
  parse_families "Adams: John , Mary" !! "Mary"%string = Some "Adams"%string
  /\ (("Mary"%string <> ""%string /\ Py.strip "Mary" = "Mary"%string
       /\ absent "," "Mary" /\ absent newline "Mary")
      /\ (Py.strip "Adams" = "Adams"%string /\ absent ":" "Adams" /\ absent newline "Adams")).
Proof.
  split; [vm_compute; reflexivity|].
  apply (parse_families_entries "Adams: John , Mary"). vm_compute; reflexivity.
Defined.
End FamiliesFacts.

(** *** The stays and expenses blocks *)

Section RecordFacts.
Import StringFacts.

Lemma parse_stays_line_fields line s :
  absent newline line -> parse_stays_line line = Some s ->
  Py.strip (member_name s) = member_name s
  /\ absent "," (member_name s) /\ absent newline (member_name s).
Proof.
  intros Hnl. unfold parse_stays_line.
  destruct (_ || _)%bool; [discriminate|].
  pose proof (split_pieces "," line) as Hp. pose proof (absent_split newline "," line Hnl) as Hn.
  destruct (Py.split "," line) as [|member [|field more]]; try discriminate.
  destruct (Py.int _); [|discriminate]. intros [= <-]. cbn [member_name].
  apply Forall_cons in Hp as [Hp _]. apply Forall_cons in Hn as [Hn _].
  split; [apply strip_idem|]. split; now apply absent_strip.
Qed.

(** X13.  The member name of every record of [parse_stays] is stripped
    and holds no comma and no newline. *)
Theorem parse_stays_records (text : string) (s : stay) :
  In s (parse_stays text) ->
  Py.strip (member_name s) = member_name s
  /\ absent "," (member_name s) /\ absent newline (member_name s).
Proof.
  unfold parse_stays. rewrite <- list_elem_of_In, list_elem_of_omap.
  intros (line & Hline & Hs). apply list_elem_of_In in Hline.
  pose proof (stripped_lines_absent text) as Hlines. rewrite List.Forall_forall in Hlines.
  destruct (Hlines _ Hline) as [Hnl _]. now apply (parse_stays_line_fields line).
Qed.

Lemma parse_stays_records_witness :
  In {| member_name := "John"; nights := 7 |} (parse_stays "  John , 7 ")
  /\ Py.strip "John" = "John"%string /\ absent "," "John" /\ absent newline "John".
Proof.
  split; [vm_compute; auto|].
  apply (parse_stays_records "  John , 7 " {| member_name := "John"; nights := 7 |}).
  vm_compute; auto.
Defined.

Lemma tidy_strip piece : absent "," piece -> absent newline piece -> tidy (Py.strip piece).
Proof. intros Hc Hn. split; [apply strip_idem|]. split; now apply absent_strip. Qed.

Lemma parse_expenses_line_fields line e :
  absent newline line -> parse_expenses_line line = Some e ->
  tidy (paid_by_family e) /\ tidy (expense_type e) /\ tidy (description e).
Proof.
  intros Hnl. unfold parse_expenses_line.
  destruct (_ || _)%bool; [discriminate|].
  pose proof (split_pieces "," line) as Hp. pose proof (absent_split newline "," line Hnl) as Hn.
  destruct (Py.split "," line) as [|family [|category [|field more]]]; try discriminate.
  destruct (Py.float _); [|discriminate]. intros [= <-].
  cbn [paid_by_family expense_type description].
  apply Forall_cons in Hp as [Hp1 Hp]. apply Forall_cons in Hn as [Hn1 Hn].
  apply Forall_cons in Hp as [Hp2 Hp]. apply Forall_cons in Hn as [Hn2 Hn].
  apply Forall_cons in Hp as [Hp3 Hp]. apply Forall_cons in Hn as [Hn3 Hn].
  repeat split; try apply strip_idem; try (now apply absent_strip).
  - destruct more; [reflexivity|apply strip_idem].
  - destruct more; [reflexivity|]. apply Forall_cons in Hp as [Hp4 _]. now apply absent_strip.
  - destruct more; [reflexivity|]. apply Forall_cons in Hn as [Hn4 _]. now apply absent_strip.
Qed.

(** X14.  The family, the category and the description of every record
    of [parse_expenses] are stripped and hold no comma and no newline; the
    description is cut at the fourth comma. *)
Theorem parse_expenses_records (text : string) (e : expense spec_float) :
  In e (parse_expenses text) ->
  tidy (paid_by_family e) /\ tidy (expense_type e) /\ tidy (description e).
Proof.
  unfold parse_expenses. rewrite <- list_elem_of_In, list_elem_of_omap.
  intros (line & Hline & He). apply list_elem_of_In in Hline.
  pose proof (stripped_lines_absent text) as Hlines. rewrite List.Forall_forall in Hlines.
  destruct (Hlines _ Hline) as [Hnl _]. now apply (parse_expenses_line_fields line).
Qed.

Lemma parse_expenses_records_witness :
  exists e, In e (parse_expenses "Adams, rent ,2100, House rental, paid in May")
            /\ description e = "House rental"%string
            /\ tidy (paid_by_family e) /\ tidy (expense_type e) /\ tidy (description e).
Proof.
  eexists. split; [vm_compute; left; reflexivity|]. split; [reflexivity|].
  eapply (parse_expenses_records "Adams, rent ,2100, House rental, paid in May").
  vm_compute; left; reflexivity.
Defined.

(** X15.  A stays line is read up to its second comma: appending a comma
    and any text to a line that has a comma changes nothing. *)
Theorem parse_stays_ignores_further_fields (line extra : string) :
  Py.contains "," line = true ->
  parse_stays_line (line ++ String "," extra) = parse_stays_line line.
Proof.
  intros Hc. unfold parse_stays_line.
  rewrite split_app, contains_app, append_not_empty, Hc.
  destruct (String.eqb_spec line "") as [->|_]; [discriminate|]. cbn [orb negb].
  destruct (split_two _ _ Hc) as (member & field & rest & ->). reflexivity.
Qed.

Lemma parse_stays_ignores_further_fields_witness :
  parse_stays_line ("John,7" ++ String "," "arrived late") = parse_stays_line "John,7".
Proof. apply parse_stays_ignores_further_fields. reflexivity. Defined.

(** X16.  An expenses line is read up to its fourth comma: appending a
    comma and any text to a line of four fields or more changes nothing. *)
Theorem parse_expenses_ignores_further_fields (line extra : string) :
  (4 <= List.length (Py.split "," line))%nat ->
  parse_expenses_line (line ++ String "," extra) = parse_expenses_line line.
Proof.
  intros Hlen. unfold parse_expenses_line.
  rewrite split_app, contains_app, append_not_empty.
  destruct (Py.split "," line) as [|family [|category [|field [|d more]]]] eqn:Hs;
    cbn [List.length] in Hlen; try lia.
  assert (Hc : Py.contains "," line = true).
  { destruct (Py.contains "," line) eqn:Hc; [reflexivity|]. exfalso.
    clear - Hs Hc. revert family category field d more Hs.
    induction line as [|c line IH]; cbn [Py.split Py.contains] in *; [discriminate|].
    apply orb_false_iff in Hc as [Hc1 Hc2]. rewrite Hc1.
    destruct (Py.split "," line) as [|p ps] eqn:Hp; [discriminate|].
    intros family category field d more [= _ ->]. eapply IH; eauto. }
  rewrite Hc. destruct (String.eqb_spec line "") as [->|_]; [discriminate|]. reflexivity.
Qed.

Lemma parse_expenses_ignores_further_fields_witness :
  parse_expenses_line ("Adams,rent,2100,House" ++ String "," "paid in May")
  = parse_expenses_line "Adams,rent,2100,House".
Proof. apply parse_expenses_ignores_further_fields. vm_compute. lia. Defined.
End RecordFacts.

(** *** Line by line *)

Section LineFacts.
Import Py StringFacts.

Lemma nonblank_app l l' : nonblank (l ++ l') = nonblank l ++ nonblank l'.
Proof. apply List.filter_app. Qed.

Lemma nonblank_repeat k : nonblank (repeat EmptyString k) = [].
Proof. induction k; [reflexivity|assumption]. Qed.

Lemma lines_lstrip s :
  nonblank (List.map strip (split newline (lstrip s)))
  = nonblank (List.map strip (split newline s)).
Proof.
  induction s as [|c s IH]; [reflexivity|]. cbn [lstrip].
  destruct (is_space c) eqn:Hc; [|reflexivity]. rewrite IH. cbn [split].
  destruct (Ascii.eqb_spec c newline) as [->|Hne]; [reflexivity|].
  destruct (split_nonempty newline s) as (piece & pieces & ->).
  cbn [List.map]. now rewrite (strip_space _ _ Hc).
Qed.

Lemma rstrip_cons_congr c p q : rstrip p = rstrip q -> rstrip (String c p) = rstrip (String c q).
Proof. intros Heq. cbn [rstrip]. now rewrite Heq. Qed.

Lemma pieces_rstrip s :
  exists k, List.map rstrip (split newline s)
            = List.map rstrip (split newline (rstrip s)) ++ repeat EmptyString k.
Proof.
  induction s as [|c s [k IH]]; [now exists 0%nat|].
  destruct (split_nonempty newline s) as (p & ps & Hs).
  destruct (split_nonempty newline (rstrip s)) as (q & qs & Hq).
  rewrite Hs, Hq in IH. cbn [List.map app] in IH. injection IH as Hp Hps.
  cbn [split rstrip]. rewrite Hs.
  destruct (rstrip s) as [|b r] eqn:Hr.
  - cbn [split] in Hq. injection Hq as <- <-. cbn [List.map app rstrip] in *.
    destruct (is_space c) eqn:Hc.
    + destruct (Ascii.eqb c newline).
      * exists (S k). cbn [List.map rstrip split app repeat]. now rewrite Hp, Hps.
      * exists k. cbn [List.map rstrip split app repeat]. now rewrite Hp, Hps, Hc.
    + destruct (Ascii.eqb_spec c newline) as [->|Hne]; [discriminate|].
      exists k. cbn [List.map rstrip split app repeat].
      rewrite (proj2 (Ascii.eqb_neq _ _) Hne), Hp, Hps, Hc.
      cbn [List.map rstrip split app]. now rewrite Hc.
  - exists k. rewrite (split_cons newline c (String b r)), Hq.
    destruct (Ascii.eqb c newline); cbn [List.map app].
    + now rewrite Hp, Hps.
    + now rewrite (rstrip_cons_congr c p q Hp), Hps.
Qed.

Lemma lines_rstrip s :
  nonblank (List.map strip (split newline (rstrip s)))
  = nonblank (List.map strip (split newline s)).
Proof.
  assert (Hstrip : forall l, List.map strip l = List.map lstrip (List.map rstrip l)).
  { intros l. rewrite List.map_map. apply List.map_ext. intros x. unfold strip.
    symmetry. apply lstrip_rstrip. }
  destruct (pieces_rstrip s) as [k Hk].
  rewrite !Hstrip, Hk, List.map_app, nonblank_app.
  replace (List.map lstrip (repeat EmptyString k)) with (repeat EmptyString k).
  - now rewrite nonblank_repeat, app_nil_r.
  - clear. induction k; cbn [repeat List.map lstrip]; [reflexivity|]. now rewrite <- IHk.
Qed.

Lemma nonblank_stripped_lines text :
  nonblank (stripped_lines text) = nonblank (List.map strip (split newline text)).
Proof. unfold stripped_lines, strip at 2. now rewrite lines_rstrip, lines_lstrip. Qed.

Lemma omap_nonblank {B} (g : string -> option B) lines :
  g EmptyString = None -> omap g (nonblank lines) = omap g lines.
Proof.
  intros Hg. induction lines as [|line lines IH]; [reflexivity|].
  cbn [nonblank List.filter omap list_omap]. fold (nonblank lines).
  destruct (String.eqb_spec line "") as [->|Hne]; cbn [negb].
  - now rewrite Hg.
  - cbn [omap list_omap]. now rewrite IH.
Qed.

Lemma omap_lines {B} (g : string -> option B) a b :
  g EmptyString = None ->
  omap g (stripped_lines (a ++ String newline b))
  = omap g (stripped_lines a) ++ omap g (stripped_lines b).
Proof.
  intros Hg.
  rewrite <- (omap_nonblank g (stripped_lines (a ++ _))), <- (omap_nonblank g (stripped_lines a)),
    <- (omap_nonblank g (stripped_lines b)) by assumption.
  rewrite !nonblank_stripped_lines, split_app, List.map_app, nonblank_app. apply omap_app.
Qed.

(** X17.  [parse_stays] works line by line: the records of two texts
    joined by a newline are the records of the first followed by those of
    the second.  Stripping the whole text first never changes what a line
    yields. *)
Theorem parse_stays_line_by_line (a b : string) :
  parse_stays (a ++ String newline b) = parse_stays a ++ parse_stays b.
Proof. apply omap_lines. reflexivity. Qed.

(** X18.  [parse_expenses] works line by line: the records of two texts
    joined by a newline are the records of the first followed by those of
    the second. *)
Theorem parse_expenses_line_by_line (a b : string) :
  parse_expenses (a ++ String newline b) = parse_expenses a ++ parse_expenses b.
Proof. apply omap_lines. reflexivity. Qed.

Lemma listing_nonblank member lines :
  List.filter (fun line => bool_decide (member ∈ line_members line)) (nonblank lines)
  = List.filter (fun line => bool_decide (member ∈ line_members line)) lines.
Proof.
  induction lines as [|line lines IH]; [reflexivity|].
  cbn [nonblank List.filter]. fold (nonblank lines).
  destruct (String.eqb_spec line "") as [->|Hne]; cbn [negb List.filter]; rewrite IH; [|reflexivity].
  now rewrite bool_decide_eq_false_2 by apply not_elem_of_nil.
Qed.

(** X19.  [parse_families] works line by line: the mapping of two texts
    joined by a newline is the mapping of the first overridden by the
    mapping of the second. *)
Theorem parse_families_line_by_line (a b : string) :
  parse_families (a ++ String newline b) = parse_families b ∪ parse_families a.
Proof.
  apply map_eq. intros member. rewrite lookup_union. unfold parse_families.
  rewrite !fold_parse_families_lookup, !lookup_empty.
  rewrite <- (listing_nonblank member (stripped_lines (a ++ _))),
    <- (listing_nonblank member (stripped_lines a)),
    <- (listing_nonblank member (stripped_lines b)).
  rewrite !nonblank_stripped_lines, split_app, List.map_app, nonblank_app, List.filter_app,
    List.map_app, last_app.
  destruct (last (List.map line_family (List.filter _ (nonblank (List.map strip (split newline b))))));
    destruct (last _); reflexivity.
Qed.
End LineFacts.
(* ===================================================================== *)
(** ** What a successful cycle stores *)
(* ===================================================================== *)

Section ResultsFacts.
Context {F : Type} `{FloatOps F}.

Lemma map_result_names {A} (g : string -> result (string * A)) families balances :
  (forall family x, g family = Ok x -> x.1 = family) ->
  map_result g families = Ok balances -> List.map fst balances = families.
Proof.
  intros Hg. revert balances. induction families as [|family families IH]; intros balances;
    cbn [map_result bind].
  - now intros [= <-].
  - destruct (g family) as [x|] eqn:Hx; [|discriminate]. cbn [bind].
    destruct (map_result g families) as [rest|]; [|discriminate]. cbn [bind].
    intros [= <-]. cbn [List.map]. now rewrite (Hg _ _ Hx), (IH rest).
Qed.

Lemma family_balance_name fn (fp : gmap string F) rate family x :
  family_balance fn fp rate family = Ok x -> x.1 = family.
Proof.
  unfold family_balance. destruct (to_float (PyInt _)); [|discriminate]. cbn [bind].
  destruct (to_float _); [|discriminate]. cbn [bind]. now intros [= <-].
Qed.

Lemma true_divide_nonzero (x : py_number F) n q : true_divide x n = Ok q -> n <> 0.
Proof.
  unfold true_divide. destruct x.
  - destruct (Z.eqb_spec n 0); [discriminate|auto].
  - destruct (f_of_int n); [|discriminate]. destruct (Z.eqb_spec n 0); [discriminate|auto].
Qed.

Lemma person_nights_families stays (m : gmap string string) fn :
  calculate_person_nights stays m = Ok fn -> dom fn ⊆ (map_img m : gset string).
Proof.
  intros Hfn family Hin. apply elem_of_dom in Hin as [n Hn].
  rewrite (person_nights_from_lookup _ _ _ _ family Hfn), lookup_empty in Hn.
  destruct (stays_of m stays family) as [|s l] eqn:Hs; [discriminate|].
  assert (Hin : In s (stays_of m stays family)) by (rewrite Hs; now left).
  apply List.filter_In in Hin as [_ Hm]. apply bool_decide_eq_true in Hm.
  apply elem_of_map_img. eauto.
Qed.

Lemma payment_of_every_expense (expenses : list (expense F)) e :
  In e expenses -> paid_by_family e ∈ dom (calculate_family_payments expenses).
Proof.
  intros He. apply elem_of_dom. unfold calculate_family_payments.
  rewrite add_payment_lookup, lookup_empty. unfold paid_amounts.
  destruct (List.filter _ expenses) as [|e' l] eqn:Hl; [|cbn [List.map]; eauto].
  assert (Hin : In e (List.filter (fun e' => String.eqb (paid_by_family e') (paid_by_family e))
                                  expenses))
    by (apply List.filter_In; split; [assumption|apply String.eqb_refl]).
  rewrite Hl in Hin. contradiction.
Qed.

Lemma payments_families (m : gmap string string) (expenses : list (expense F)) :
  unknown_families m expenses = [] ->
  dom (calculate_family_payments expenses) ⊆ (map_img m : gset string).
Proof.
  intros Hu family Hin. apply elem_of_dom in Hin as [p Hp].
  unfold calculate_family_payments in Hp. rewrite add_payment_lookup, lookup_empty in Hp.
  unfold paid_amounts in Hp.
  destruct (List.filter _ expenses) as [|e l] eqn:He; [discriminate|].
  assert (Hin : In e (List.filter (fun e => String.eqb (paid_by_family e) family) expenses))
    by (rewrite He; now left).
  apply List.filter_In in Hin as [Hin Heq]. apply String.eqb_eq in Heq.
  destruct (decide (family ∈ (map_img m : gset string))) as [|Hnot]; [assumption|].
  assert (Hbad : In family (unknown_families m expenses)).
  { unfold unknown_families. apply List.filter_In. split.
    - rewrite <- Heq. now apply List.in_map.
    - now rewrite bool_decide_eq_false_2. }
  rewrite Hu in Hbad. contradiction.
Qed.

(** What the block has computed when it stores results. *)
Lemma calculate_cycle_results fuel (m : gmap string string) stays
    (expenses : list (expense F)) (r : results F) :
  calculate_cycle fuel m stays expenses = Some (Results r) ->
  unknown_members m stays = [] /\ unknown_families m expenses = []
  /\ calculate_person_nights stays m = Ok (r_family_nights r)
  /\ r_family_payments r = calculate_family_payments expenses
  /\ r_total_expenses r = sum_amounts expenses
  /\ r_total_nights r = sum_values (r_family_nights r)
  /\ true_divide (r_total_expenses r) (r_total_nights r) = Ok (r_cost_per_night r)
  /\ r_all_families r = dom (r_family_nights r) ∪ dom (r_family_payments r)
  /\ map_result (family_balance (r_family_nights r) (r_family_payments r) (r_cost_per_night r))
                (elements (r_all_families r)) = Ok (r_balances r)
  /\ calculate_settlements fuel (r_balances r) = Some (r_settlements r)
  /\ r_member_to_family r = m /\ r_stays r = stays /\ r_expenses r = expenses.
Proof.
  unfold calculate_cycle.
  destruct (unknown_members m stays) as [|name names] eqn:Hm; [|discriminate].
  destruct (unknown_families m expenses) as [|family families] eqn:Hf; [|discriminate].
  unfold compute_balances.
  destruct (calculate_person_nights stays m) as [fn|] eqn:Hfn; [|discriminate]. cbn [bind].
  destruct (true_divide _ _) as [rate|] eqn:Hrate; [|discriminate]. cbn [bind].
  destruct (map_result _ _) as [balances|] eqn:Hb; [|discriminate]. cbn [bind].
  destruct (calculate_settlements fuel balances) as [ts|] eqn:Hts; [|discriminate].
  intros [= <-]. cbn. repeat split; assumption.
Qed.

(** X20.  When the block stores results: every stay's member is in the
    family map; the stored total of person-nights is the sum of the nights
    of the stays and is not zero; every family of the results is a family
    of the family map; every paying family is among them; the balances
    hold exactly one entry for each of them; and the stored settlements are
    those of the stored balances. *)
Theorem stored_results_are_consistent (fuel : nat) (member_to_family : gmap string string)
    (stays : list stay) (expenses : list (expense F)) (r : results F) :
  calculate_cycle fuel member_to_family stays expenses = Some (Results r) ->
  (forall s, In s stays -> is_Some (member_to_family !! member_name s))
  /\ r_total_nights r = total_of_nights stays
  /\ r_total_nights r <> 0
  /\ r_all_families r ⊆ (map_img member_to_family : gset string)
  /\ (forall e, In e expenses -> paid_by_family e ∈ r_all_families r)
  /\ List.map fst (r_balances r) = elements (r_all_families r)
  /\ calculate_settlements fuel (r_balances r) = Some (r_settlements r).
Proof.
  intros (Hm & Hf & Hfn & Hfp & Hte & Htn & Hrate & Hall & Hb & Hts & _)%calculate_cycle_results.
  repeat split.
  - intros s Hs. destruct (member_to_family !! member_name s) eqn:Hk; [eauto|].
    assert (Hin : In (member_name s) (unknown_members member_to_family stays))
      by (apply unknown_members_spec; eauto).
    rewrite Hm in Hin. contradiction.
  - rewrite Htn, (person_nights_from_total _ _ _ _ Hfn).
    unfold sum_values. rewrite map_fold_empty. lia.
  - now apply true_divide_nonzero in Hrate.
  - rewrite Hall, Hfp. apply union_subseteq. split.
    + now apply (person_nights_families stays).
    + now apply payments_families.
  - intros e He. rewrite Hall, Hfp. apply elem_of_union_r. now apply payment_of_every_expense.
  - apply (map_result_names _ _ _ (family_balance_name _ _ _) Hb).
  - assumption.
Qed.
End ResultsFacts.

Lemma stored_results_are_consistent_witness :
  exists r,
    calculate_cycle 5 (parse_families scenario_families_text)
                    (parse_stays scenario_stays_text)
                    (parse_expenses scenario_expenses_text) = Some (Results r)
    /\ r_total_nights r = 20
    /\ List.map fst (r_balances r) = elements (r_all_families r).
Proof.
  eexists. split; [vm_compute; reflexivity|].
  edestruct (stored_results_are_consistent (F := spec_float) 5
               (parse_families scenario_families_text) (parse_stays scenario_stays_text)
               (parse_expenses scenario_expenses_text))
    as (_ & Htotal & _ & _ & _ & Hnames & _); [vm_compute; reflexivity|].
  split; [exact Htotal|exact Hnames].
Defined.

Section Binary64Results.
Import B64 B64Facts.

(** X21.  Every stored transfer is between two different families of the
    results, from one whose balance is below [-0.01] to one whose balance
    is above [0.01], and its amount exceeds [0.01]. *)
Theorem stored_settlements_join_result_families (fuel : nat)
    (member_to_family : gmap string string) (stays : list stay)
    (expenses : list (expense spec_float)) (r : results spec_float) :
  calculate_cycle fuel member_to_family stays expenses = Some (Results r) ->
  forall payer payee amount, In (payer, payee, amount) (r_settlements r) ->
    payer ∈ r_all_families r /\ payee ∈ r_all_families r /\ payer <> payee
    /\ (exists b, In (payer, b) (r_balances r) /\ SFltb b (SFopp cent) = true)
    /\ (exists b, In (payee, b) (r_balances r) /\ SFltb cent b = true)
    /\ SFltb cent amount = true.
Proof.
  intros (_ & _ & _ & _ & _ & _ & _ & _ & Hb & Hts & _)%calculate_cycle_results
         payer payee amount Hin.
  pose proof (map_result_names _ _ _ (family_balance_name _ _ _) Hb) as Hnames.
  destruct (payer_is_debtor _ _ _ _ Hts Hin) as [(b & Hpb & Hlt) (b' & Hpb' & Hlt')].
  cbn [fst snd] in *.
  assert (Hkey : forall name x, In (name, x) (r_balances r) -> name ∈ r_all_families r).
  { intros name x Hx. apply elem_of_elements. rewrite <- Hnames.
    apply list_elem_of_In. apply (List.in_map fst) in Hx. exact Hx. }
  repeat split; eauto.
  - intros ->.
    assert (Hsame : (payee, b) = (payee, b')).
    { apply (NoDup_fst_inj (r_balances r)); auto. rewrite Hnames. apply NoDup_elements. }
    injection Hsame as ->. apply debtor_not_creditor in Hlt. congruence.
  - revert Hts. unfold calculate_settlements.
    destruct (partition_balances (r_balances r)) as [debtors creditors]. intros Hts.
    pose proof (settle_loop_amounts _ _ _ _ Hts) as Hamounts.
    rewrite List.Forall_forall in Hamounts. now apply (Hamounts _ Hin).
Qed.

Lemma stored_settlements_join_result_families_witness :
  exists r,
    calculate_cycle 5 (parse_families scenario_families_text)
                    (parse_stays scenario_stays_text)
                    (parse_expenses scenario_expenses_text) = Some (Results r)
    /\ In ("Oiler"%string, "Adams"%string, literal "25") (r_settlements r)
    /\ "Oiler"%string <> "Adams"%string.
Proof.
  eexists. split; [vm_compute; reflexivity|]. split; [vm_compute; left; reflexivity|].
  edestruct (stored_settlements_join_result_families 5
               (parse_families scenario_families_text) (parse_stays scenario_stays_text)
               (parse_expenses scenario_expenses_text))
    as (_ & _ & Hne & _); [vm_compute; reflexivity| |exact Hne].
  vm_compute; left; reflexivity.
Defined.


End Binary64Results.

(* ===================================================================== *)
(** ** The reports *)
(* ===================================================================== *)

(** The formatting against the output of CPython 3.11 for the same
    values: ties go to the even digit, the sign survives rounding to zero,
    a short field is padded and a long one kept. *)
Example fixed2_as_python_prints :
  List.map (fun s => Fmt.fixed2 (literal s))
    ["0.125"; "0.375"; "2.675"; "99.995"; "123456789.125"; "-0.001"; "-0.0"; "1e22";
     "5e-324"; "nan"; "inf"; "-inf"]%string
  = ["0.12"; "0.38"; "2.67"; "100.00"; "123456789.12"; "-0.00"; "-0.00";
     "10000000000000000000000.00"; "0.00"; "nan"; "inf"; "-inf"]%string.
Proof. vm_compute. reflexivity. Qed.

Example padding_as_python_prints :
  (Fmt.rjust 10 (Fmt.fixed2 (literal "7.5")), Fmt.rjust 8 (Fmt.str (-7)),
   Fmt.rjust 3 (Fmt.str 1234), Fmt.ljust 6 "ab", Fmt.capitalize "rENT aB")
  = ("      7.50", "      -7", "1234", "ab    ", "Rent ab")%string.
Proof. vm_compute. reflexivity. Qed.

(** The CSV report of the scenario of the specification. *)
Example scenario_csv_report :
  match calculate_cycle 5 (parse_families scenario_families_text)
                        (parse_stays scenario_stays_text)
                        (parse_expenses scenario_expenses_text) with
  | Some (Results r) =>
      generate_csv_report (r_member_to_family r) (r_stays r) (r_expenses r) (r_family_nights r)
                          (r_family_payments r) (r_total_expenses r) (r_balances r)
                          (r_settlements r)
  | _ => Raise ZeroDivisionError
  end
  = Ok (Fmt.join ""
          ["BALANCE SHEET"; Fmt.nl;
           "Family,Nights,Owes,Paid,Balance"; Fmt.crlf;
           "Adams,10,75.00,100.00,25.00"; Fmt.crlf;
           "Oiler,10,75.00,50.00,-25.00"; Fmt.crlf;
           Fmt.nl; "SETTLEMENTS"; Fmt.nl;
           "From,To,Amount"; Fmt.crlf;
           "Oiler,Adams,25.00"; Fmt.crlf;
           Fmt.nl; "EXPENSE DETAILS"; Fmt.nl;
           "Family,Type,Amount,Description"; Fmt.crlf;
           "Adams,rent,100.00,"; Fmt.crlf;
           "Oiler,food,50.00,"; Fmt.crlf;
           Fmt.nl; "STAY DETAILS"; Fmt.nl;
           "Family,Member,Nights"; Fmt.crlf;
           "Adams,John,5"; Fmt.crlf;
           "Adams,Mary,5"; Fmt.crlf;
           "Oiler,Bob,10"; Fmt.crlf]%string).
Proof. vm_compute. reflexivity. Qed.

Section ReportFacts.
Import Fmt.

Lemma fold_left_add_shift l a : fold_left Z.add l a = a + fold_left Z.add l 0.
Proof.
  revert a. induction l as [|x l IH]; intros a; cbn [fold_left]; [lia|].
  rewrite (IH (a + x)), (IH (0 + x)). lia.
Qed.

Lemma fold_left_add_perm l l' :
  Permutation l l' -> fold_left Z.add l 0 = fold_left Z.add l' 0.
Proof.
  induction 1 as [|x l l' Hp IH|x y l|l l' l'' Hp IH Hp' IH']; cbn [fold_left].
  - reflexivity.
  - rewrite (fold_left_add_shift l), (fold_left_add_shift l'). now rewrite IH.
  - rewrite (fold_left_add_shift l (0 + y + x)), (fold_left_add_shift l (0 + x + y)). lia.
  - congruence.
Qed.

Lemma nights_of_group_snoc group x :
  nights_of_group (group ++ [x]) = nights_of_group group + x.2.
Proof.
  unfold nights_of_group. rewrite List.map_app, List.fold_left_app. reflexivity.
Qed.

Lemma family_stay_lines_total family group :
  (family_stay_lines family group).2 = nights_of_group group.
Proof.
  unfold family_stay_lines, nights_of_group. cbn [snd].
  apply fold_left_add_perm, Permutation_map, Permutation_sym, list_sort_perm.
Qed.

(** The grouping of the report runs as the aggregation does, and sums to
    it group by group. *)
Lemma family_stays_from_nights stays (m : gmap string string)
    (acc : gmap string (list (string * Z))) :
  match person_nights_from stays m (nights_of_group <$> acc) with
  | Ok fn => exists groups, family_stays_from stays m acc = Ok groups
                            /\ fn = nights_of_group <$> groups
  | Raise e => family_stays_from stays m acc = Raise e
  end.
Proof.
  revert acc. induction stays as [|s rest IH]; intros acc;
    cbn [person_nights_from family_stays_from].
  - eauto.
  - destruct (m !! member_name s) as [family|]; [|reflexivity].
    specialize (IH (<[family := default [] (acc !! family) ++ [(member_name s, nights s)]]> acc)).
    rewrite fmap_insert, nights_of_group_snoc in IH. rewrite lookup_fmap.
    destruct (acc !! family) as [group|]; exact IH.
Qed.

Lemma keys_sum (fn : gmap string Z) (families : list string) :
  NoDup families -> (forall k, k ∈ dom fn -> In k families) ->
  fold_left Z.add (List.map (fun family => default 0 (fn !! family)) families) 0
  = sum_values fn.
Proof.
  intros Hnd Hdom. pose proof (nights_sum fn families Hnd Hdom) as Hq.
  assert (Hz : forall l, sum_over l (nights_of fn)
                         == inject_Z (fold_left Z.add
                                        (List.map (fun family => default 0 (fn !! family)) l) 0)).
  { clear. induction l as [|k l IH]; unfold sum_over in *;
      cbn [List.map qsum fold_right fold_left]; [reflexivity|].
    fold (qsum (List.map (nights_of fn) l)). rewrite IH, (fold_left_add_shift _ (0 + _)).
    rewrite inject_Z_plus. unfold nights_of. rewrite Z.add_0_l. reflexivity. }
  rewrite Hz in Hq. unfold Qeq in Hq. cbn [inject_Z Qnum Qden] in Hq. lia.
Qed.

Lemma sorted_names_perm (names : gset string) : Permutation (elements names) (sorted_names names).
Proof. apply list_sort_perm. Qed.

Lemma sorted_names_NoDup (names : gset string) : NoDup (sorted_names names).
Proof. rewrite <- sorted_names_perm. apply NoDup_elements. Qed.

Lemma sorted_names_In (names : gset string) k : In k (sorted_names names) <-> k ∈ names.
Proof.
  rewrite <- elem_of_elements, <- list_elem_of_In. now rewrite sorted_names_perm.
Qed.

Lemma stay_summary_fold (groups : gmap string (list (string * Z))) families acc :
  (fold_left (fun acc family =>
                let '(lines, family_total) :=
                  family_stay_lines family (default [] (groups !! family)) in
                (acc.1 ++ lines, acc.2 + family_total))
             families acc).2
  = acc.2 + fold_left Z.add
              (List.map (fun family => default 0 ((nights_of_group <$> groups) !! family))
                        families) 0.
Proof.
  revert acc. induction families as [|family families IH]; intros acc;
    cbn [fold_left List.map]; [lia|].
  rewrite IH, (fold_left_add_shift _ (0 + _)).
  pose proof (family_stay_lines_total family (default [] (groups !! family))) as Ht.
  destruct (family_stay_lines family (default [] (groups !! family))) as [lines total].
  cbn [fst snd] in *. rewrite Ht, lookup_fmap.
  destruct (groups !! family) as [group|]; cbn [fmap option_fmap option_map default from_option];
    unfold id; [lia|]. unfold nights_of_group. cbn. lia.
Qed.

Lemma stay_summary_total (groups : gmap string (list (string * Z))) :
  (stay_summary groups).2 = sum_values (nights_of_group <$> groups).
Proof.
  unfold stay_summary. rewrite stay_summary_fold. cbn [snd]. rewrite Z.add_0_l.
  apply keys_sum; [apply sorted_names_NoDup|].
  intros k Hk. apply sorted_names_In. now rewrite dom_fmap_L in Hk.
Qed.
End ReportFacts.

Section ReportTheorems.
Import Fmt.

Lemma map_result_ok {A B} (g : A -> result B) (l : list A) :
  (forall a, In a l -> exists b, g a = Ok b) -> exists bs, map_result g l = Ok bs.
Proof.
  induction l as [|a l IH]; intros Hall; cbn [map_result]; [eauto|].
  destruct (Hall a (or_introl eq_refl)) as [b ->].
  destruct IH as [bs ->]; [intros a' Ha'; apply Hall; now right|]. cbn [bind]. eauto.
Qed.

Lemma map_result_each {A B} (g : A -> result B) (l : list A) bs a :
  map_result g l = Ok bs -> In a l -> exists b, g a = Ok b.
Proof.
  revert bs. induction l as [|a' l IH]; intros bs; cbn [map_result]; [contradiction|].
  destruct (g a') as [b|] eqn:Hb; [|discriminate]. cbn [bind].
  destruct (map_result g l) as [rest|]; [|discriminate]. intros _ [<-|Hin]; eauto.
Qed.

Lemma fixed2_number_sum_amounts (expenses : list (expense spec_float)) :
  exists text, fixed2_number (sum_amounts expenses) = Ok text.
Proof. destruct expenses; cbn; eauto. Qed.

Lemma lookup_balance_ok (balances : list (string * spec_float)) family :
  In family (List.map fst balances) -> exists b, lookup_balance balances family = Ok b.
Proof.
  intros Hin. unfold lookup_balance.
  destruct (List.find _ balances) as [x|] eqn:Hfind; [eauto|].
  apply List.in_map_iff in Hin as (x & <- & Hx).
  apply (List.find_none _ _ Hfind) in Hx. now rewrite String.eqb_refl in Hx.
Qed.

(** What the cycle has checked for a family of the results. *)
Lemma family_balance_parts fn (fp : gmap string spec_float) rate family x :
  family_balance fn fp rate family = Ok x ->
  (exists n : spec_float, to_float (PyInt (default 0 (fn !! family))) = Ok n)
  /\ exists text,
       fixed2_number (match fp !! family with Some p => PyFloat p | None => PyInt 0 end)
       = Ok text.
Proof.
  unfold family_balance, fixed2_number.
  destruct (to_float (PyInt _)) as [n|]; [|discriminate]. cbn [bind].
  destruct (to_float _) as [p|]; [|discriminate]. cbn [bind]. eauto.
Qed.

Lemma balance_line_ok fn (fp : gmap string spec_float) rate balances family x :
  family_balance fn fp rate family = Ok x -> In family (List.map fst balances) ->
  (exists line, balance_line fn fp rate balances family = Ok line)
  /\ (exists row, csv_balance_row fn fp rate balances family = Ok row).
Proof.
  intros ([n Hn] & [text Htext])%family_balance_parts [b Hb]%lookup_balance_ok.
  unfold balance_line, csv_balance_row. cbv zeta. rewrite Hn, Hb, Htext. cbn [bind]. eauto.
Qed.

Lemma stored_balance_lines fuel (m : gmap string string) stays
    (expenses : list (expense spec_float)) (r : results spec_float) family :
  calculate_cycle fuel m stays expenses = Some (Results r) ->
  In family (sorted_names (dom (r_family_nights r) ∪ dom (r_family_payments r))) ->
  (exists line, balance_line (r_family_nights r) (r_family_payments r) (r_cost_per_night r)
                             (r_balances r) family = Ok line)
  /\ (exists row, csv_balance_row (r_family_nights r) (r_family_payments r)
                                  (r_cost_per_night r) (r_balances r) family = Ok row).
Proof.
  intros (_ & _ & _ & _ & _ & _ & _ & Hall & Hb & _)%calculate_cycle_results Hin.
  apply sorted_names_In in Hin. rewrite <- Hall in Hin.
  apply elem_of_elements, list_elem_of_In in Hin.
  destruct (map_result_each _ _ _ _ Hb Hin) as [x Hx].
  apply (balance_line_ok _ _ _ _ _ x Hx).
  now rewrite (map_result_names _ _ _ (family_balance_name _ _ _) Hb).
Qed.

(** X23.  Whenever the block stores results, [generate_report] returns a
    text for them: the members of all stays are in the family map, the
    total it recomputes from the stays is the stored non-zero total, every
    family it lists has a balance, and no conversion overflows. *)
Theorem generate_report_returns_on_stored_results (fuel : nat)
    (member_to_family : gmap string string) (stays : list stay)
    (expenses : list (expense spec_float)) (r : results spec_float) :
  calculate_cycle fuel member_to_family stays expenses = Some (Results r) ->
  exists report,
    generate_report (r_member_to_family r) (r_stays r) (r_expenses r) (r_family_nights r)
                    (r_family_payments r) (r_total_expenses r) (r_balances r) (r_settlements r)
    = Ok report.
Proof.
  intros Hcycle.
  pose proof (calculate_cycle_results _ _ _ _ _ Hcycle)
    as (_ & _ & Hfn & _ & Hte & Htn & Hrate & _ & _ & _ & -> & -> & ->).
  unfold generate_report.
  destruct (fixed2_number_sum_amounts expenses) as [total Htotal].
  rewrite <- Hte in Htotal. rewrite Htotal. cbn [bind].
  destruct (map_result_ok
              (fun family => family_detail_lines family
                               (default [] (family_expenses expenses !! family)))
              (sorted_names (dom (family_expenses expenses)))) as [details ->].
  { intros family _. unfold family_detail_lines.
    destruct (fixed2_number_sum_amounts (default [] (family_expenses expenses !! family)))
      as [text ->]. cbn [bind]. eauto. }
  cbn [bind].
  pose proof (family_stays_from_nights stays member_to_family ∅) as Hgroups.
  rewrite fmap_empty in Hgroups. unfold calculate_person_nights in Hfn. rewrite Hfn in Hgroups.
  destruct Hgroups as (groups & -> & Hsum). cbn [bind].
  pose proof (stay_summary_total groups) as Htotal_nights. rewrite <- Hsum, <- Htn in Htotal_nights.
  destruct (stay_summary groups) as [stay_lines total_nights]. cbn [snd] in Htotal_nights.
  rewrite Htotal_nights, Hrate. cbn [bind].
  destruct (map_result_ok
              (balance_line (r_family_nights r) (r_family_payments r) (r_cost_per_night r)
                            (r_balances r))
              (sorted_names (dom (r_family_nights r) ∪ dom (r_family_payments r))))
    as [balance_lines ->].
  { intros family Hin. now apply (stored_balance_lines _ _ _ _ _ _ Hcycle). }
  cbn [bind]. eauto.
Qed.

Lemma generate_report_returns_on_stored_results_witness :
  exists r,
    calculate_cycle 5 (parse_families scenario_families_text)
                    (parse_stays scenario_stays_text)
                    (parse_expenses scenario_expenses_text) = Some (Results r)
    /\ exists report,
         generate_report (r_member_to_family r) (r_stays r) (r_expenses r) (r_family_nights r)
                         (r_family_payments r) (r_total_expenses r) (r_balances r)
                         (r_settlements r)
         = Ok report.
Proof.
  eexists. split; [vm_compute; reflexivity|].
  eapply (generate_report_returns_on_stored_results 5
            (parse_families scenario_families_text) (parse_stays scenario_stays_text)
            (parse_expenses scenario_expenses_text)).
  vm_compute; reflexivity.
Defined.

(** X24.  Whenever the block stores results, [generate_csv_report]
    returns a text for them. *)
Theorem generate_csv_report_returns_on_stored_results (fuel : nat)
    (member_to_family : gmap string string) (stays : list stay)
    (expenses : list (expense spec_float)) (r : results spec_float) :
  calculate_cycle fuel member_to_family stays expenses = Some (Results r) ->
  exists report,
    generate_csv_report (r_member_to_family r) (r_stays r) (r_expenses r) (r_family_nights r)
                        (r_family_payments r) (r_total_expenses r) (r_balances r)
                        (r_settlements r)
    = Ok report.
Proof.
  intros Hcycle.
  pose proof (calculate_cycle_results _ _ _ _ _ Hcycle)
    as (Hm & _ & _ & _ & _ & Htn & Hrate & _ & _ & _ & -> & -> & ->).
  unfold generate_csv_report. rewrite <- Htn, Hrate. cbn [bind].
  destruct (map_result_ok
              (csv_balance_row (r_family_nights r) (r_family_payments r) (r_cost_per_night r)
                               (r_balances r))
              (sorted_names (dom (r_family_nights r) ∪ dom (r_family_payments r))))
    as [balance_rows ->].
  { intros family Hin. now apply (stored_balance_lines _ _ _ _ _ _ Hcycle). }
  cbn [bind].
  destruct (map_result_ok (stay_with_family member_to_family) stays) as [rows ->].
  { intros s Hs. unfold stay_with_family.
    destruct (member_to_family !! member_name s) as [family|] eqn:Hk; [eauto|].
    assert (Hin : In (member_name s) (unknown_members member_to_family stays))
      by (apply unknown_members_spec; eauto).
    rewrite Hm in Hin. contradiction. }
  cbn [bind]. eauto.
Qed.

Lemma generate_csv_report_returns_on_stored_results_witness :
  exists r,
    calculate_cycle 5 (parse_families scenario_families_text)
                    (parse_stays scenario_stays_text)
                    (parse_expenses scenario_expenses_text) = Some (Results r)
    /\ exists report,
         generate_csv_report (r_member_to_family r) (r_stays r) (r_expenses r)
                             (r_family_nights r) (r_family_payments r) (r_total_expenses r)
                             (r_balances r) (r_settlements r)
         = Ok report.
Proof.
  eexists. split; [vm_compute; reflexivity|].
  eapply (generate_csv_report_returns_on_stored_results 5
            (parse_families scenario_families_text) (parse_stays scenario_stays_text)
            (parse_expenses scenario_expenses_text)).
  vm_compute; reflexivity.
Defined.

(** X25.  When [calculate_person_nights] returns, the grouping of the
    stays in [generate_report] succeeds with the same families; the
    subtotal it prints for a family is that family's value in
    [family_nights], and the total it prints and divides by is
    [sum(family_nights.values())]. *)
Theorem report_nights_are_the_aggregated_nights (stays : list stay)
    (member_to_family : gmap string string) (family_nights : gmap string Z) :
  calculate_person_nights stays member_to_family = Ok family_nights ->
  exists family_stays,
    family_stays_from stays member_to_family ∅ = Ok family_stays
    /\ dom family_stays = dom family_nights
    /\ (forall family group, family_stays !! family = Some group ->
          family_nights !! family = Some (family_stay_lines family group).2)
    /\ (stay_summary family_stays).2 = sum_values family_nights.
Proof.
  intros Hfn. pose proof (family_stays_from_nights stays member_to_family ∅) as Hgroups.
  rewrite fmap_empty in Hgroups. unfold calculate_person_nights in Hfn. rewrite Hfn in Hgroups.
  destruct Hgroups as (groups & Hgroups & ->). exists groups. repeat split.
  - assumption.
  - now rewrite dom_fmap_L.
  - intros family group Hgroup. now rewrite lookup_fmap, Hgroup, family_stay_lines_total.
  - apply stay_summary_total.
Qed.

Lemma report_nights_are_the_aggregated_nights_witness :
  exists family_nights,
    calculate_person_nights scenario_stays scenario_families = Ok family_nights
    /\ exists family_stays,
         family_stays_from scenario_stays scenario_families ∅ = Ok family_stays
         /\ dom family_stays = dom family_nights
         /\ (forall family group, family_stays !! family = Some group ->
               family_nights !! family = Some (family_stay_lines family group).2)
         /\ (stay_summary family_stays).2 = sum_values family_nights.
Proof.
  eexists. split; [vm_compute; reflexivity|].
  apply (report_nights_are_the_aggregated_nights scenario_stays scenario_families).
  vm_compute; reflexivity.
Defined.

Lemma family_expenses_lookup (expenses : list (expense spec_float))
    (acc : gmap string (list (expense spec_float))) family :
  fold_left (fun groups e =>
               <[paid_by_family e := default [] (groups !! paid_by_family e) ++ [e]]> groups)
            expenses acc !! family
  = match List.filter (fun e => String.eqb (paid_by_family e) family) expenses with
    | [] => acc !! family
    | l => Some (default [] (acc !! family) ++ l)
    end.
Proof.
  revert acc. induction expenses as [|e rest IH]; intros acc; [reflexivity|].
  cbn [fold_left List.filter]. rewrite IH.
  destruct (String.eqb_spec (paid_by_family e) family) as [->|Hne].
  - rewrite lookup_insert_eq. cbn [default from_option id].
    destruct (List.filter _ rest); [reflexivity|]. now rewrite <- List.app_assoc.
  - now rewrite lookup_insert_ne.
Qed.

(** X26.  The group of a family in the expense details of
    [generate_report] holds exactly that family's expenses, in expense
    order, and the subtotal printed for it is the family's value in
    [calculate_family_payments]: the same number as in the Paid column. *)
Theorem report_subtotals_are_the_payments (expenses : list (expense spec_float))
    (family : string) (group : list (expense spec_float)) :
  family_expenses expenses !! family = Some group ->
  group = List.filter (fun e => String.eqb (paid_by_family e) family) expenses
  /\ exists paid, calculate_family_payments expenses !! family = Some paid
                  /\ sum_amounts group = PyFloat paid.
Proof.
  unfold family_expenses, calculate_family_payments.
  rewrite family_expenses_lookup, add_payment_lookup, !lookup_empty. unfold paid_amounts.
  destruct (List.filter _ expenses) as [|e l]; [discriminate|].
  cbn [default from_option id app]. intros [= <-]. split; [reflexivity|].
  eexists. split; reflexivity.
Qed.

Lemma report_subtotals_are_the_payments_witness :
  exists group,
    family_expenses (parse_expenses scenario_expenses_text) !! "Adams"%string = Some group
    /\ group = List.filter (fun e => String.eqb (paid_by_family e) "Adams")
                           (parse_expenses scenario_expenses_text)
    /\ exists paid,
         calculate_family_payments (parse_expenses scenario_expenses_text) !! "Adams"%string
         = Some paid
         /\ sum_amounts group = PyFloat paid.
Proof.
  eexists. split; [vm_compute; reflexivity|].
  apply (report_subtotals_are_the_payments (parse_expenses scenario_expenses_text)).
  vm_compute; reflexivity.
Defined.
End ReportTheorems.

(* ===================================================================== *)
(** ** How close to zero the settlement brings the balances (exact arithmetic) *)
(* ===================================================================== *)

Section ExactAccuracy.
Local Open Scope Q_scope.
Implicit Types (ds cs balances : list (string * Q)) (ts : list (string * string * Q)).








End ExactAccuracy.

Section ExactAccuracyTheorem.
Local Open Scope Q_scope.
Implicit Types (ds cs balances : list (string * Q)) (ts : list (string * string * Q)).








End ExactAccuracyTheorem.

(* ===================================================================== *)
(** ** The order of the stays *)
(* ===================================================================== *)

Lemma total_of_nights_perm stays stays' :
  Permutation stays stays' -> total_of_nights stays = total_of_nights stays'.
Proof.
  unfold total_of_nights.
  induction 1 as [|s l l' _ IH|s s' l|l l' l'' _ IH1 _ IH2]; cbn [List.map fold_right]; lia.
Qed.

(** X29.  The result of [calculate_person_nights] does not depend on the
    order of the stays: when it returns for a list of stays, it returns the
    same mapping for every rearrangement of the list. *)
Theorem calculate_person_nights_order_independent (stays stays' : list stay)
    (member_to_family : gmap string string) (family_nights : gmap string Z) :
  Permutation stays stays' ->
  calculate_person_nights stays member_to_family = Ok family_nights ->
  calculate_person_nights stays' member_to_family = Ok family_nights.
Proof.
  intros Hperm Hfn.
  assert (Hknown : unknown_members member_to_family stays' = []).
  { pose proof (person_nights_from_spec stays member_to_family ∅) as Hspec.
    unfold calculate_person_nights in Hfn. rewrite Hfn in Hspec.
    destruct (unknown_members member_to_family stays) as [|name names] eqn:Hu; [|discriminate].
    unfold unknown_members in *.
    apply Permutation_nil. rewrite <- Hu. symmetry.
    now apply filter_perm, Permutation_map. }
  pose proof (person_nights_from_spec stays' member_to_family ∅) as Hspec.
  rewrite Hknown in Hspec. destruct Hspec as [fn' Hfn']. unfold calculate_person_nights.
  rewrite Hfn'. f_equal. apply map_eq. intros family.
  rewrite (person_nights_from_lookup _ _ _ _ family Hfn').
  rewrite (person_nights_from_lookup _ _ _ _ family Hfn).
  assert (Hp : Permutation (stays_of member_to_family stays family)
                           (stays_of member_to_family stays' family))
    by now apply filter_perm.
  pose proof (total_of_nights_perm _ _ Hp) as Htotal.
  destruct (stays_of member_to_family stays family) as [|s l].
  - apply Permutation_nil in Hp. now rewrite Hp.
  - destruct (stays_of member_to_family stays' family) as [|s' l'].
    + apply Permutation_sym, Permutation_nil in Hp. discriminate.
    + now rewrite Htotal.
Qed.

Lemma calculate_person_nights_order_independent_witness :
  exists family_nights,
    calculate_person_nights scenario_stays scenario_families = Ok family_nights
    /\ calculate_person_nights (List.rev scenario_stays) scenario_families = Ok family_nights.
Proof.
  eexists. split; [vm_compute; reflexivity|].
  apply (calculate_person_nights_order_independent scenario_stays).
  - apply Permutation_rev.
  - vm_compute; reflexivity.
Defined.
